(** * CmuxTerminalProcess: frame codec, flow control and process lifecycle

    A shallow embedding of [CmuxTerminalProcess] (the terminal process that
    talks to a cmux-xterm server over HTTP and a WebSocket) and the
    properties of its frame codec, its flow-control counters, its exit
    handling and its pseudo-PID hash.

    Two variants of the class are covered: the raw-socket variant, which
    carries its own WebSocket framing ([_parseWebSocketFrames],
    [_createWebSocketFrame]), and the variant built on the [ws] package
    ([src/vs/platform/terminal/node/cmuxTerminalProcess.ts]), modelled in
    [WsVariant] for the parts that differ. *)

From Stdlib Require Import String Ascii Strings.Byte Numbers.DecimalString.
From Stdlib Require Import ZArith List Bool Lia.
Import ListNotations.
Local Open Scope Z_scope.

(* ================================================================== *)
(** ** JavaScript numbers and strings *)

Module JS.

(** The numbers of this program are integers far below 2^53, where the
    arithmetic of doubles is exact: they are modelled as [Z].  The 32-bit
    coercion of the bitwise operators is written out. *)
Definition ToInt32 (z : Z) : Z := (z + 2 ^ 31) mod 2 ^ 32 - 2 ^ 31.

(** [a << b] *)
Definition shl (a b : Z) : Z := ToInt32 (Z.shiftl (ToInt32 a) (Z.land b 31)).

(** [a & b] *)
Definition band (a b : Z) : Z := Z.land (ToInt32 a) (ToInt32 b).

(** A string is its sequence of UTF-16 code units; [s.charCodeAt(i)] is the
    [i]-th element and [s.length] the length of the list. *)
Definition jsstring : Type := list Z.

(** A string literal of 7-bit characters. *)
Definition lit (s : string) : jsstring :=
  map (fun a => Z.of_N (N_of_ascii a)) (list_ascii_of_string s).

(** A literal between double quotes (code unit 34). *)
Definition quoted (s : string) : jsstring := [34] ++ lit s ++ [34].

(** [s.length] *)
Definition str_length (s : jsstring) : Z := Z.of_nat (length s).

(** [`${n}`] for an integer [n]: its decimal digits. *)
Definition decimal (n : Z) : jsstring := lit (NilZero.string_of_int (Z.to_int n)).

(** [hay] contains [needle] as a contiguous run of code units. *)
Definition contains (hay needle : jsstring) : Prop :=
  exists pre post, hay = pre ++ needle ++ post.

End JS.
Export JS.

(* ================================================================== *)
(** ** Pseudo-PID *)

(** [_hashSessionId]: the loop over the code units of the session id. *)
Definition hash_step (hash char : Z) : Z :=
  let hash := (shl hash 5 - hash) + char in
  band hash hash.

Definition _hashSessionId (sessionId : jsstring) : Z :=
  Z.abs (fold_left hash_step sessionId 0).

(** The hash as the specification words it: a polynomial rolling hash with
    multiplier 31, truncated to a signed 32-bit integer at each step, the
    absolute value taken at the end. *)
Definition rolling_step_31 (h c : Z) : Z := ToInt32 (31 * h + c).

Definition rolling_hash_31 (s : jsstring) : Z :=
  Z.abs (fold_left rolling_step_31 s 0).

(* ================================================================== *)
(** ** Buffers *)

Definition Buffer : Type := list byte.

Module Buf.

Definition b2z (b : byte) : Z := Z.of_N (Byte.to_N b).

(** A store into a [Uint8Array] keeps the low eight bits. *)
Definition z2b (z : Z) : byte :=
  match Byte.of_N (Z.to_N (z mod 256)) with
  | Some b => b
  | None => x00
  end.

(** [data.length] *)
Definition len (data : Buffer) : Z := Z.of_nat (length data).

(** [Buffer.alloc(n)]: [n] zero bytes. *)
Definition alloc (n : nat) : Buffer := repeat x00 n.

(** [buf[i] = v] (a store outside the buffer is ignored). *)
Fixpoint set (buf : Buffer) (i : nat) (v : Z) : Buffer :=
  match buf, i with
  | [], _ => []
  | _ :: rest, O => z2b v :: rest
  | b :: rest, S i' => b :: set rest i' v
  end.

(** [src.copy(target, targetStart)]: the bytes of [src] overwrite [target]
    from [targetStart] on, as many as fit. *)
Fixpoint copy (src target : Buffer) (targetStart : nat) : Buffer :=
  match target, targetStart with
  | [], _ => []
  | t :: rest, S k => t :: copy src rest k
  | t :: rest, O =>
      match src with
      | [] => t :: rest
      | s :: src' => s :: copy src' rest O
      end
  end.

(** The [n] bytes of [v], most significant first. *)
Fixpoint be_bytes (n : nat) (v : Z) : Buffer :=
  match n with
  | O => []
  | S n' => z2b (Z.shiftr v (8 * Z.of_nat n')) :: be_bytes n' v
  end.

(** The value of a run of bytes read most significant first. *)
Definition be_value (bs : Buffer) : Z :=
  fold_left (fun acc b => acc * 256 + b2z b) bs 0.

(** [buf.writeUInt16BE(value, offset)] *)
Definition writeUInt16BE (buf : Buffer) (value : Z) (offset : nat) : Buffer :=
  copy (be_bytes 2 value) buf offset.

(** [buf.writeBigUInt64BE(BigInt(value), offset)] *)
Definition writeBigUInt64BE (buf : Buffer) (value : Z) (offset : nat) : Buffer :=
  copy (be_bytes 8 value) buf offset.

(** The loop [for (i = 0; i < payload.length; i++) payload[i] ^= key[i % 4]],
    from index [i] on.  A key shorter than four bytes reads [undefined]
    at the missing places, which [^] takes for 0. *)
Fixpoint xor_from (i : nat) (payload key : Buffer) : Buffer :=
  match payload with
  | [] => []
  | p :: rest =>
      z2b (Z.lxor (b2z p) (b2z (nth (i mod 4)%nat key x00)))
        :: xor_from (S i) rest key
  end.

Definition xor_mask (payload key : Buffer) : Buffer := xor_from 0 payload key.

End Buf.
Export Buf.

(* ================================================================== *)
(** ** Frame codec *)

Record Frame : Type := { opcode : Z; payload : Buffer }.

Module Codec.

(** One pass through the body of the [while] loop either runs to its end,
    leaves the loop by [break], or touches the buffer outside its bounds. *)
Inductive Step (A : Type) : Type :=
| Continue (a : A)
| BreakLoop
| OutOfRange.
Arguments Continue {A} a.
Arguments BreakLoop {A}.
Arguments OutOfRange {A}.

Definition bind {A B : Type} (m : Step A) (k : A -> Step B) : Step B :=
  match m with
  | Continue a => k a
  | BreakLoop => BreakLoop
  | OutOfRange => OutOfRange
  end.

Notation "x <- m ;; k" := (bind m (fun x => k))
  (at level 61, m at next level, right associativity).
Notation "' pat <- m ;; k" := (bind m (fun x => match x with pat => k end))
  (at level 61, pat pattern, m at next level, right associativity).

(** [if (cond) { break; }] *)
Definition break_if (cond : bool) : Step unit :=
  if cond then BreakLoop else Continue tt.

(** Reads are checked: an access that is not wholly inside the buffer is
    [OutOfRange].  (Node answers such an index with [undefined], such a
    [readUInt16BE] or [readBigUInt64BE] with a RangeError, and clamps such
    a [subarray].) *)
Definition at_ (data : Buffer) (i : Z) : Step Z :=
  if i <? 0 then OutOfRange
  else match nth_error data (Z.to_nat i) with
       | Some b => Continue (b2z b)
       | None => OutOfRange
       end.

Definition subarray (data : Buffer) (start end_ : Z) : Step Buffer :=
  if (start <? 0) || (end_ <? start) || (len data <? end_) then OutOfRange
  else Continue (firstn (Z.to_nat (end_ - start)) (skipn (Z.to_nat start) data)).

Definition readUInt16BE (data : Buffer) (offset : Z) : Step Z :=
  bs <- subarray data offset (offset + 2) ;; Continue (be_value bs).

(** [Number(data.readBigUInt64BE(offset))].  The conversion to a double
    rounds values from 2^53 on; it is monotone and fixes 2^53, and a
    buffer is shorter than 2^53 bytes, so the only use of the result, the
    test [offset + payloadLength > data.length], is the same with or
    without the rounding: the value is kept exact. *)
Definition readBigUInt64BE (data : Buffer) (offset : Z) : Step Z :=
  bs <- subarray data offset (offset + 8) ;; Continue (be_value bs).

(** The body of the [while] loop of [_parseWebSocketFrames] at [offset]:
    the frame pushed and the offset after it. *)
Definition parse_frame (data : Buffer) (offset : Z) : Step (Frame * Z) :=
  _ <- break_if (offset + 2 >? len data) ;;
  byte1 <- at_ data offset ;;
  byte2 <- at_ data (offset + 1) ;;
  let opcode := Z.land byte1 0x0F in
  let masked := negb (Z.land byte2 0x80 =? 0) in
  let payloadLength := Z.land byte2 0x7F in
  let offset := offset + 2 in
  '(payloadLength, offset) <-
    (if payloadLength =? 126 then
       _ <- break_if (offset + 2 >? len data) ;;
       v <- readUInt16BE data offset ;;
       Continue (v, offset + 2)
     else if payloadLength =? 127 then
       _ <- break_if (offset + 8 >? len data) ;;
       v <- readBigUInt64BE data offset ;;
       Continue (v, offset + 8)
     else Continue (payloadLength, offset)) ;;
  '(maskKey, offset) <-
    (if masked then
       _ <- break_if (offset + 4 >? len data) ;;
       k <- subarray data offset (offset + 4) ;;
       Continue (Some k, offset + 4)
     else Continue (None, offset)) ;;
  _ <- break_if (offset + payloadLength >? len data) ;;
  payload <- subarray data offset (offset + payloadLength) ;;
  let offset := offset + payloadLength in
  let payload :=
    match maskKey with
    | Some k => xor_mask payload k
    | None => payload
    end in
  Continue ({| opcode := opcode; payload := payload |}, offset).

(** How a run of the parser ends. *)
Inductive Outcome : Type :=
| Returned (frames : list Frame) (offset : Z)
    (** [return frames], with the value [offset] had on leaving the loop *)
| Faulted     (** a read outside the buffer *)
| OutOfFuel.  (** the loop was cut off by the model *)

(** [while (offset < data.length) { ... }], at most [fuel] passes. *)
Fixpoint parse_loop (fuel : nat) (data : Buffer) (offset : Z)
    (frames : list Frame) : Outcome :=
  match fuel with
  | O => OutOfFuel
  | S fuel' =>
      if offset <? len data then
        match parse_frame data offset with
        | Continue (frame, offset') =>
            parse_loop fuel' data offset' (frames ++ [frame])
        | BreakLoop => Returned frames offset
        | OutOfRange => Faulted
        end
      else Returned frames offset
  end.

Definition parse_run (data : Buffer) : Outcome :=
  parse_loop (S (length data)) data 0 [].

End Codec.
Export Codec.

(** [_parseWebSocketFrames(data)]: the frames returned; [None] stands for a
    run that does not return them; [parse_run_returns] shows there is none. *)
Definition _parseWebSocketFrames (data : Buffer) : option (list Frame) :=
  match parse_run data with
  | Returned frames _ => Some frames
  | Faulted | OutOfFuel => None
  end.

(** The argument of [_createWebSocketFrame(data: string | Buffer)]. *)
Inductive FrameData : Type :=
| Text (s : jsstring)
| Binary (b : Buffer).

(** What the class takes from outside: the UTF-8 conversions of Node's
    [Buffer] ([Buffer.from(s, 'utf-8')] and [buf.toString('utf-8')]) and the
    two constants of [FlowControlConstants], imported from
    [../common/terminal.js]. *)
Class Host : Type := {
  utf8_encode : jsstring -> Buffer;
  utf8_decode : Buffer -> jsstring;
  HighWatermarkChars : Z;
  LowWatermarkChars : Z
}.

(** [_createWebSocketFrame(data)], with the four bytes drawn by
    [crypto.randomBytes(4)] as the argument [mask].  Node caps the length of
    a buffer far below 2^64, so the range check of [writeBigUInt64BE] never
    fails. *)
Definition frame_payload `{Host} (data : FrameData) : Buffer :=
  match data with
  | Text s => utf8_encode s
  | Binary b => b
  end.

Definition frame_opcode (data : FrameData) : Z :=
  match data with
  | Text _ => 0x01
  | Binary _ => 0x02
  end.

Definition _createWebSocketFrame `{Host} (data : FrameData) (mask : Buffer) : Buffer :=
  let payload := frame_payload data in
  let opcode := frame_opcode data in
  let maskedPayload := xor_mask payload mask in
  let header :=
    if len payload <? 126 then
      let header := alloc 6 in
      let header := set header 0 (Z.lor 0x80 opcode) in
      let header := set header 1 (Z.lor 0x80 (len payload)) in
      copy mask header 2
    else if len payload <? 65536 then
      let header := alloc 8 in
      let header := set header 0 (Z.lor 0x80 opcode) in
      let header := set header 1 (Z.lor 0x80 126) in
      let header := writeUInt16BE header (len payload) 2 in
      copy mask header 4
    else
      let header := alloc 14 in
      let header := set header 0 (Z.lor 0x80 opcode) in
      let header := set header 1 (Z.lor 0x80 127) in
      let header := writeBigUInt64BE header (len payload) 2 in
      copy mask header 10 in
  header ++ maskedPayload.

(** The length of the header [_createWebSocketFrame] writes for a payload
    of [n] bytes: 2 bytes, the extended length, and the 4-byte mask key. *)
Definition header_length (n : Z) : nat :=
  if n <? 126 then 6%nat else if n <? 65536 then 8%nat else 14%nat.

(** The length field of the second header byte and the bytes of the
    extended length, as [_createWebSocketFrame] chooses them. *)
Definition length_field (n : Z) : Z :=
  if n <? 126 then n else if n <? 65536 then 126 else 127.

Definition extended_length (n : Z) : Buffer :=
  if n <? 126 then [] else if n <? 65536 then be_bytes 2 n else be_bytes 8 n.

(* ================================================================== *)
(** ** The process object *)

(** The upgraded socket, as far as the class looks at it: its [destroyed]
    flag and what [write] was given, oldest first. *)
Record Socket : Type := { destroyed : bool; written : list Buffer }.

(** A call of [fire] on one of the emitters [_onProcessReady],
    [_onProcessData], [_onProcessExit]. *)
Inductive Event : Type :=
| ProcessReady (pid : Z) (cwd : jsstring)
| ProcessData (text : jsstring)
| ProcessExit (code : Z).

(** The mutable fields of a [CmuxTerminalProcess], with [isDisposed] for
    [this._store.isDisposed] and [fired] for the calls of [fire] so far,
    oldest first. *)
Record Process : Type := {
  _cmuxSessionId : option jsstring;
  _socket : option Socket;
  _exitCode : option Z;
  _initialCwd : jsstring;
  _cols : Z;
  _rows : Z;
  _isPtyPaused : bool;
  _unacknowledgedCharCount : Z;
  isDisposed : bool;
  fired : list Event
}.

Module Upd.
Definition sessionId v (s : Process) : Process :=
  {| _cmuxSessionId := v; _socket := _socket s; _exitCode := _exitCode s;
     _initialCwd := _initialCwd s; _cols := _cols s; _rows := _rows s;
     _isPtyPaused := _isPtyPaused s;
     _unacknowledgedCharCount := _unacknowledgedCharCount s;
     isDisposed := isDisposed s; fired := fired s |}.
Definition socket v (s : Process) : Process :=
  {| _cmuxSessionId := _cmuxSessionId s; _socket := v; _exitCode := _exitCode s;
     _initialCwd := _initialCwd s; _cols := _cols s; _rows := _rows s;
     _isPtyPaused := _isPtyPaused s;
     _unacknowledgedCharCount := _unacknowledgedCharCount s;
     isDisposed := isDisposed s; fired := fired s |}.
Definition exitCode v (s : Process) : Process :=
  {| _cmuxSessionId := _cmuxSessionId s; _socket := _socket s; _exitCode := v;
     _initialCwd := _initialCwd s; _cols := _cols s; _rows := _rows s;
     _isPtyPaused := _isPtyPaused s;
     _unacknowledgedCharCount := _unacknowledgedCharCount s;
     isDisposed := isDisposed s; fired := fired s |}.
Definition dims c r (s : Process) : Process :=
  {| _cmuxSessionId := _cmuxSessionId s; _socket := _socket s;
     _exitCode := _exitCode s;
     _initialCwd := _initialCwd s; _cols := c; _rows := r;
     _isPtyPaused := _isPtyPaused s;
     _unacknowledgedCharCount := _unacknowledgedCharCount s;
     isDisposed := isDisposed s; fired := fired s |}.
Definition paused v (s : Process) : Process :=
  {| _cmuxSessionId := _cmuxSessionId s; _socket := _socket s;
     _exitCode := _exitCode s;
     _initialCwd := _initialCwd s; _cols := _cols s; _rows := _rows s;
     _isPtyPaused := v;
     _unacknowledgedCharCount := _unacknowledgedCharCount s;
     isDisposed := isDisposed s; fired := fired s |}.
Definition count v (s : Process) : Process :=
  {| _cmuxSessionId := _cmuxSessionId s; _socket := _socket s;
     _exitCode := _exitCode s;
     _initialCwd := _initialCwd s; _cols := _cols s; _rows := _rows s;
     _isPtyPaused := _isPtyPaused s;
     _unacknowledgedCharCount := v;
     isDisposed := isDisposed s; fired := fired s |}.
Definition disposed v (s : Process) : Process :=
  {| _cmuxSessionId := _cmuxSessionId s; _socket := _socket s;
     _exitCode := _exitCode s;
     _initialCwd := _initialCwd s; _cols := _cols s; _rows := _rows s;
     _isPtyPaused := _isPtyPaused s;
     _unacknowledgedCharCount := _unacknowledgedCharCount s;
     isDisposed := v; fired := fired s |}.
End Upd.

(** [emitter.fire(e)] *)
Definition fire (e : Event) (s : Process) : Process :=
  {| _cmuxSessionId := _cmuxSessionId s; _socket := _socket s;
     _exitCode := _exitCode s;
     _initialCwd := _initialCwd s; _cols := _cols s; _rows := _rows s;
     _isPtyPaused := _isPtyPaused s;
     _unacknowledgedCharCount := _unacknowledgedCharCount s;
     isDisposed := isDisposed s; fired := fired s ++ [e] |}.

(** The constructor: [existingSessionId] is the id to attach to, if any. *)
Definition new_process (cwd : jsstring) (cols rows : Z)
    (existingSessionId : option jsstring) : Process :=
  {| _cmuxSessionId := existingSessionId; _socket := None; _exitCode := None;
     _initialCwd := cwd; _cols := cols; _rows := rows;
     _isPtyPaused := false; _unacknowledgedCharCount := 0;
     isDisposed := false; fired := [] |}.

(** The exit events among the calls of [fire]. *)
Definition exit_codes (s : Process) : list Z :=
  flat_map (fun e => match e with ProcessExit c => [c] | _ => [] end) (fired s).

Definition ready_events (s : Process) : list Event :=
  filter (fun e => match e with ProcessReady _ _ => true | _ => false end) (fired s).

(** *** Session creation and start *)

(** What came back from the HTTP request of [_createCmuxSession]: a response
    with its status code and body, an ['error'] event, or neither (the
    request sets no timeout, so the promise can stay pending). *)
Inductive HttpReply : Type :=
| Response (statusCode : Z) (data : jsstring)
| RequestError (message : jsstring)
| NoResponse.

(** What came back from the upgrade request of [_connectWebSocket]: the
    ['upgrade'] event, an ['error'] event, or neither. *)
Inductive Handshake : Type :=
| Upgraded
| HandshakeError (message : jsstring)
| Unanswered.

(** A promise settled or left pending. *)
Inductive Promise (A : Type) : Type :=
| Resolved (a : A)
| Rejected (message : jsstring)
| Pending.
Arguments Resolved {A} a.
Arguments Rejected {A} message.
Arguments Pending {A}.

(** The body of a 200 response as [JSON.parse] reads it, taken at the type
    the method declares for it, [{ id: string; ws_url: string }]; [None]
    when [JSON.parse] throws. *)
Record SessionInfo : Type := { id : jsstring; ws_url : jsstring }.

Class Json : Type := { JSON_parse : jsstring -> option SessionInfo }.

Definition _createCmuxSession `{Json} (reply : HttpReply) : Promise SessionInfo :=
  match reply with
  | Response statusCode data =>
      if statusCode =? 200 then
        match JSON_parse data with
        | Some response => Resolved response
        | None => Rejected (lit "Invalid JSON response: " ++ data)
        end
      else Rejected (lit "HTTP " ++ decimal statusCode ++ lit ": " ++ data)
  | RequestError message => Rejected message
  | NoResponse => Pending
  end.

(** A session id that [if (this._cmuxSessionId)] takes for true. *)
Definition has_session (s : Process) : bool :=
  match _cmuxSessionId s with
  | Some (_ :: _) => true
  | Some [] | None => false
  end.

Definition _connectWebSocket (handshake : Handshake) (s : Process) : Promise Process :=
  if negb (has_session s) then Rejected (lit "No session ID")
  else match handshake with
       | Upgraded =>
           Resolved (Upd.socket (Some {| destroyed := false; written := [] |}) s)
       | HandshakeError message => Rejected message
       | Unanswered => Pending
       end.

(** What [start()] resolves to: [undefined], a launch error, or nothing as
    long as the handshake is unanswered. *)
Inductive StartResult : Type :=
| Started
| LaunchError (message : jsstring)
| NotSettled.

Definition start_failure (message : jsstring) : StartResult :=
  LaunchError (lit "Failed to create cmux session: " ++ message).

Definition start `{Json} (reply : HttpReply) (handshake : Handshake)
    (s : Process) : Process * StartResult :=
  let created : Promise Process :=
    if has_session s then Resolved s
    else match _createCmuxSession reply with
         | Resolved response => Resolved (Upd.sessionId (Some (id response)) s)
         | Rejected message => Rejected message
         | Pending => Pending
         end in
  match created with
  | Rejected message => (s, start_failure message)
  | Pending => (s, NotSettled)
  | Resolved s1 =>
      match _connectWebSocket handshake s1 with
      | Rejected message => (s1, start_failure message)
      | Pending => (s1, NotSettled)
      | Resolved s2 =>
          let pseudoPid :=
            _hashSessionId (match _cmuxSessionId s2 with Some i => i | None => [] end) in
          (fire (ProcessReady pseudoPid (_initialCwd s2)) s2, Started)
      end
  end.

(** *** The socket's callbacks *)

(** The flow-control lines of the data callback for a decoded [text]. *)
Definition count_inbound `{Host} (text : jsstring) (s : Process) : Process :=
  let s := Upd.count (_unacknowledgedCharCount s + str_length text) s in
  if negb (_isPtyPaused s) && (_unacknowledgedCharCount s >? HighWatermarkChars)
  then Upd.paused true s
  else s.

(** The body of [for (const frame of frames)]. *)
Definition handle_frame `{Host} (frame : Frame) (s : Process) : Process :=
  if (opcode frame =? 0x01) || (opcode frame =? 0x02) then
    let text := utf8_decode (payload frame) in
    let s := count_inbound text s in
    fire (ProcessData text) s
  else if opcode frame =? 0x08 then
    let s := Upd.exitCode (Some 0) s in
    fire (ProcessExit 0) s
  else s.

(** [socket.on('data', ...)] *)
Definition on_socket_data `{Host} (data : Buffer) (s : Process) : Process :=
  match _parseWebSocketFrames data with
  | Some frames => fold_left (fun s frame => handle_frame frame s) frames s
  | None => s
  end.

(** [socket.on('close', ...)] *)
Definition on_socket_close (s : Process) : Process :=
  let code := match _exitCode s with Some c => c | None => 0 end in
  let s := Upd.exitCode (Some code) s in
  fire (ProcessExit code) s.

(** *** Methods *)

Definition _closeSocket (s : Process) : Process :=
  match _socket s with
  | Some _ => Upd.socket None s
  | None => s
  end.

(** [this.dispose()]: the store is marked disposed and runs the disposable
    the constructor registered, which closes the socket. *)
Definition dispose (s : Process) : Process :=
  _closeSocket (Upd.disposed true s).

(** [shutdown(immediate)].  The DELETE request sent when [immediate] holds
    is not awaited and its outcome is only logged: it changes no field. *)
Definition shutdown (immediate : bool) (s : Process) : Process :=
  let s := _closeSocket s in
  let code := match _exitCode s with
              | Some c => if c =? 0 then 0 else c
              | None => 0
              end in
  let s := fire (ProcessExit code) s in
  dispose s.

(** The guard [this._store.isDisposed || !this._socket || this._socket.destroyed]
    of [input] and [resize] is false. *)
Definition channel_open (s : Process) : bool :=
  negb (isDisposed s) &&
  match _socket s with
  | Some sock => negb (destroyed sock)
  | None => false
  end.

(** [this._socket.write(frame)] *)
Definition socket_write (frame : Buffer) (s : Process) : Process :=
  match _socket s with
  | Some sock =>
      Upd.socket (Some {| destroyed := destroyed sock;
                          written := written sock ++ [frame] |}) s
  | None => s
  end.

(** [input(data)], with the mask bytes its frame draws. *)
Definition input `{Host} (data : jsstring) (mask : Buffer) (s : Process) : Process :=
  if negb (channel_open s) then s
  else socket_write (_createWebSocketFrame (Text data) mask) s.

(** [JSON.stringify({ type: 'resize', cols, rows })] for integer sizes. *)
Definition resize_message (cols rows : Z) : jsstring :=
  lit "{" ++ quoted "type" ++ lit ":" ++ quoted "resize"
    ++ lit "," ++ quoted "cols" ++ lit ":" ++ decimal cols
    ++ lit "," ++ quoted "rows" ++ lit ":" ++ decimal rows ++ lit "}".

(** [resize(cols, rows)], with the mask bytes its frame draws. *)
Definition resize `{Host} (cols rows : Z) (mask : Buffer) (s : Process) : Process :=
  if negb (channel_open s) then s
  else
    let s := Upd.dims cols rows s in
    let controlMsg := resize_message cols rows in
    socket_write (_createWebSocketFrame (Text controlMsg) mask) s.

(** [acknowledgeDataEvent(charCount)] for an integer [charCount]. *)
Definition acknowledgeDataEvent `{Host} (charCount : Z) (s : Process) : Process :=
  let s := Upd.count (Z.max (_unacknowledgedCharCount s - charCount) 0) s in
  if _isPtyPaused s && (_unacknowledgedCharCount s <? LowWatermarkChars)
  then Upd.paused false s
  else s.

Definition clearUnacknowledgedChars (s : Process) : Process :=
  Upd.paused false (Upd.count 0 s).

(** *** The variant built on the [ws] package *)

Module WsVariant.

(** [this._ws.on('close', (code, reason) => ...)] of
    [src/vs/platform/terminal/node/cmuxTerminalProcess.ts]: the exit code
    is taken from the close code the callback is given. *)
Definition on_close (code : Z) (s : Process) : Process :=
  let s := Upd.exitCode (Some (if code =? 1000 then 0 else 1)) s in
  fire (ProcessExit (match _exitCode s with Some c => c | None => 0 end)) s.

End WsVariant.

(** *** Runs *)

(** What can happen to an object between [start] and its disposal: the two
    callbacks of the socket and the calls of the public methods. *)
Inductive Call : Type :=
| SocketData (data : Buffer)
| SocketClose
| CallInput (data : jsstring) (mask : Buffer)
| CallResize (cols rows : Z) (mask : Buffer)
| CallAcknowledge (charCount : Z)
| CallClearUnacknowledged
| CallShutdown (immediate : bool).

Definition call `{Host} (c : Call) (s : Process) : Process :=
  match c with
  | SocketData data => on_socket_data data s
  | SocketClose => on_socket_close s
  | CallInput data mask => input data mask s
  | CallResize cols rows mask => resize cols rows mask s
  | CallAcknowledge charCount => acknowledgeDataEvent charCount s
  | CallClearUnacknowledged => clearUnacknowledgedChars s
  | CallShutdown immediate => shutdown immediate s
  end.

(** The states an object goes through, the first one included. *)
Fixpoint trace {A : Type} (step : A -> Process -> Process) (xs : list A)
    (s : Process) : list Process :=
  s :: match xs with
       | [] => []
       | x :: xs' => trace step xs' (step x s)
       end.

Definition final {A : Type} (step : A -> Process -> Process) (xs : list A)
    (s : Process) : Process :=
  fold_left (fun s x => step x s) xs s.

(** How often a flag goes from [false] to [true], and from [true] to
    [false], along a list. *)
Fixpoint rises (l : list bool) : nat :=
  match l with
  | false :: ((true :: _) as rest) => S (rises rest)
  | _ :: rest => rises rest
  | [] => O
  end.

Fixpoint falls (l : list bool) : nat :=
  match l with
  | true :: ((false :: _) as rest) => S (falls rest)
  | _ :: rest => falls rest
  | [] => O
  end.

(** How often [_isPtyPaused] is set to [true], and to [false], along a run. *)
Definition pauses (t : list Process) : nat := rises (map _isPtyPaused t).
Definition resumes (t : list Process) : nat := falls (map _isPtyPaused t).

(** A text or binary frame, the ones whose payload is counted. *)
Definition is_data_frame (f : Frame) : bool :=
  (opcode f =? 0x01) || (opcode f =? 0x02).

(** The cumulative length of the texts a list of frames carries in its text
    and binary frames. *)
Definition inbound_length `{Host} (frames : list Frame) : Z :=
  fold_right
    (fun f acc =>
       (if is_data_frame f then str_length (utf8_decode (payload f)) else 0) + acc)
    0 frames.

(* ================================================================== *)
(** ** The wire format, read off a buffer *)

(** The quantities the frame at [offset] declares, written with plain list
    operations. *)
Module Wire.

Definition byte_at (data : Buffer) (i : Z) : Z :=
  b2z (nth (Z.to_nat i) data x00).

Definition slice (data : Buffer) (start end_ : Z) : Buffer :=
  firstn (Z.to_nat (end_ - start)) (skipn (Z.to_nat start) data).

(** The bytes of the extended length: 2 after a length field of 126, 8
    after one of 127, none otherwise. *)
Definition ext_size (data : Buffer) (offset : Z) : Z :=
  let l7 := Z.land (byte_at data (offset + 1)) 0x7F in
  if l7 =? 126 then 2 else if l7 =? 127 then 8 else 0.

Definition is_masked (data : Buffer) (offset : Z) : bool :=
  negb (Z.land (byte_at data (offset + 1)) 0x80 =? 0).

(** The bytes of the mask key: 4 when the mask bit is set. *)
Definition key_size (data : Buffer) (offset : Z) : Z :=
  if is_masked data offset then 4 else 0.

(** The payload length the header declares. *)
Definition declared_length (data : Buffer) (offset : Z) : Z :=
  let l7 := Z.land (byte_at data (offset + 1)) 0x7F in
  if (l7 =? 126) || (l7 =? 127)
  then be_value (slice data (offset + 2) (offset + 2 + ext_size data offset))
  else l7.

Definition frame_size (data : Buffer) (offset : Z) : Z :=
  2 + ext_size data offset + key_size data offset + declared_length data offset.

(** The frame at [offset], when all its bytes are there. *)
Definition frame_at (data : Buffer) (offset : Z) : Frame :=
  let key_start := offset + 2 + ext_size data offset in
  let body_start := key_start + key_size data offset in
  let body := slice data body_start (body_start + declared_length data offset) in
  {| opcode := Z.land (byte_at data offset) 0x0F;
     payload := if is_masked data offset
                then xor_mask body (slice data key_start (key_start + 4))
                else body |}.

(** The bytes from [offset] on are too few for the 2-byte header, for the
    extended length, for the mask key, or for the declared payload. *)
Definition insufficient (data : Buffer) (offset : Z) : Prop :=
  let remaining := len data - offset in
  remaining < 2
  \/ remaining < 2 + ext_size data offset
  \/ remaining < 2 + ext_size data offset + key_size data offset
  \/ remaining < frame_size data offset.

End Wire.

(** [buf] is exactly one complete frame, [frame]: the loop body run on [buf]
    alone pushes [frame] and ends at the end of [buf]. *)
Definition one_complete_frame (buf : Buffer) (frame : Frame) : Prop :=
  parse_frame buf 0 = Continue (frame, len buf).

(* ================================================================== *)
(** ** A host to run the model on *)

(** On 7-bit text UTF-8 is one byte per code unit; the examples below use no
    other text.  The watermarks are 100000 and 5000 characters. *)
#[export] Instance example_host : Host := {|
  utf8_encode := map z2b;
  utf8_decode := map b2z;
  HighWatermarkChars := 100000;
  LowWatermarkChars := 5000
|}.

(** The body [{"id":"abc123","ws_url":"/ws/abc123"}]. *)
Definition abc123_body : jsstring :=
  lit "{" ++ quoted "id" ++ lit ":" ++ quoted "abc123" ++ lit ","
    ++ quoted "ws_url" ++ lit ":" ++ quoted "/ws/abc123" ++ lit "}".

(** A [JSON.parse] that reads this one body and throws on any other. *)
#[export] Instance example_json : Json := {|
  JSON_parse := fun data =>
    if list_eq_dec Z.eq_dec data abc123_body
    then Some {| id := lit "abc123"; ws_url := lit "/ws/abc123" |}
    else None
|}.

(** An object right after a successful [start()] on a new session. *)
Definition started_abc123 : Process :=
  fst (start (Response 200 abc123_body) Upgraded
         (new_process (lit "/home/user") 80 24 None)).

(** An unmasked close frame with status 1001 (going away) as the server
    sends it: FIN + opcode 8, length 2, the close code. *)
Definition close_frame_1001 : Buffer := [x88; x02; x03; xe9].

(** Forty thousand letters [a] in a text frame. *)
Definition text_40000 : Frame :=
  {| opcode := 0x01; payload := repeat x61 (Z.to_nat 40000) |}.

(** The unmasked text frame [a] followed by the first three bytes of a
    masked frame: its header and one byte of its mask key. *)
Definition frame_and_fragment : Buffer := [x81; x01; x61; x81; x85; x37].

(* ================================================================== *)
(** ** Further methods and notions *)

(** [processBinary(data)] is [this.input(data, true)]; [input] does not read
    its second argument. *)
Definition processBinary `{Host} (data : jsstring) (mask : Buffer)
    (s : Process) : Process :=
  input data mask s.

(** [signal === 'SIGTERM' || signal === 'SIGKILL'] *)
Definition is_kill_signal (signal : jsstring) : bool :=
  if list_eq_dec Z.eq_dec signal (lit "SIGTERM") then true
  else if list_eq_dec Z.eq_dec signal (lit "SIGKILL") then true
  else false.

(** [sendSignal(signal)] *)
Definition sendSignal (signal : jsstring) (s : Process) : Process :=
  if is_kill_signal signal then shutdown true s else s.

(** The events one frame makes the data callback fire. *)
Definition frame_events `{Host} (f : Frame) : list Event :=
  if is_data_frame f then [ProcessData (utf8_decode (payload f))]
  else if opcode f =? 0x08 then [ProcessExit 0]
  else [].

(** Every exit code recorded or fired so far is 0. *)
Definition exits_only_zero (s : Process) : Prop :=
  (_exitCode s = None \/ _exitCode s = Some 0)
  /\ Forall (fun c => c = 0) (exit_codes s).

(** No acknowledgement in a run has a negative count. *)
Definition acks_nonneg (calls : list Call) : Prop :=
  Forall (fun c => match c with
                   | CallAcknowledge charCount => 0 <= charCount
                   | _ => True
                   end) calls.

(** Whenever the object is not paused, the count is at most the high
    watermark. *)
Definition pause_not_missed `{Host} (s : Process) : Prop :=
  _isPtyPaused s = false -> _unacknowledgedCharCount s <= HighWatermarkChars.

(** The bytes of a list of frames on the wire, headers counted at their
    least: two bytes and the payload for each. *)
Definition wire_bytes (frames : list Frame) : Z :=
  fold_right (fun f acc => 2 + len (payload f) + acc) 0 frames.

(** Offsets moved by [k], for a buffer with [k] bytes put in front. *)
Definition shift_step (k : Z) (r : Step (Frame * Z)) : Step (Frame * Z) :=
  match r with
  | Continue (f, o) => Continue (f, k + o)
  | BreakLoop => BreakLoop
  | OutOfRange => OutOfRange
  end.

Definition shift_outcome (k : Z) (r : Outcome) : Outcome :=
  match r with
  | Returned frames o => Returned frames (k + o)
  | Faulted => Faulted
  | OutOfFuel => OutOfFuel
  end.

(** The number a run of bytes stands for, most significant byte first. *)
Fixpoint big_endian (bs : Buffer) : Z :=
  match bs with
  | [] => 0
  | b :: rest => b2z b * 256 ^ Z.of_nat (length rest) + big_endian rest
  end.

(** The payload of a masked frame as the wire format defines it: the byte
    at index [i] XORed with the key byte at index [i mod 4]. *)
Definition unmasked (body key : Buffer) : Buffer :=
  map (fun ip => z2b (Z.lxor (b2z (snd ip))
                        (b2z (nth (fst ip mod 4)%nat key x00))))
    (combine (seq 0 (length body)) body).

(** [frame] is a masked frame that carries [payload] under the key [mask]:
    bit 7 of its second byte is set, the four bytes before the payload are
    [mask], and the bytes after them are as many as [payload] has and give
    [payload] back when the byte at each index [i] is XORed with the key
    byte at [i mod 4]. *)
Definition masked_frame_of (frame mask payload : Buffer) : Prop :=
  let hl := header_length (Z.of_nat (length payload)) in
  let maskKey := firstn 4 (skipn (hl - 4) frame) in
  let transmitted := skipn hl frame in
  (exists byte2, nth_error frame 1 = Some byte2
                 /\ Z.testbit (b2z byte2) 7 = true)
  /\ length maskKey = 4%nat
  /\ maskKey = mask
  /\ length transmitted = length payload
  /\ (forall i : nat,
         nth_error payload i
         = option_map
             (fun t => z2b (Z.lxor (b2z t) (b2z (nth (i mod 4)%nat maskKey x00))))
             (nth_error transmitted i))
  /\ unmasked transmitted maskKey = payload.



(** *** The property map *)

Module Props.

(** The keys of [_properties], which are the members of
    [ProcessPropertyType]. *)
Inductive ProcessPropertyType : Type :=
| Cwd
| InitialCwd
| FixedDimensions
| Title
| ShellType
| HasChildProcesses
| ResolvedShellLaunchConfig
| OverrideDimensions
| FailedShellIntegrationActivation
| UsedShellIntegrationInjection
| ShellIntegrationInjectionFailureReason.

(** A property value as it is at run time, where the casts
    [as IProcessPropertyMap[T]] are gone. *)
Inductive Value : Type :=
| Undefined
| Str (s : jsstring)
| Bool (b : bool)
| Dimensions (cols rows : option Z)
| EmptyObject.

Record Properties : Type := {
  cwd : jsstring;
  initialCwd : jsstring;
  fixedDimensions : Value;
  title : jsstring;
  shellType : option jsstring;
  hasChildProcesses : bool;
  resolvedShellLaunchConfig : Value;
  overrideDimensions : Value;
  failedShellIntegrationActivation : Value;
  usedShellIntegrationInjection : Value;
  shellIntegrationInjectionFailureReason : Value
}.

(** The initializer of [_properties] followed by the two assignments of the
    constructor. *)
Definition new_properties (cwd0 : jsstring) : Properties :=
  {| cwd := cwd0; initialCwd := cwd0;
     fixedDimensions := Dimensions None None;
     title := []; shellType := None; hasChildProcesses := true;
     resolvedShellLaunchConfig := EmptyObject;
     overrideDimensions := Undefined;
     failedShellIntegrationActivation := Bool false;
     usedShellIntegrationInjection := Undefined;
     shellIntegrationInjectionFailureReason := Undefined |}.

Definition shellType_value (p : Properties) : Value :=
  match shellType p with
  | Some t => Str t
  | None => Undefined
  end.

(** [refreshProperty(type)] *)
Definition refreshProperty (type : ProcessPropertyType) (p : Properties) : Value :=
  match type with
  | Cwd => Str (cwd p)
  | InitialCwd => Str (initialCwd p)
  | Title => Str (title p)
  | _ => shellType_value p
  end.

(** [updateProperty(type, value)] *)
Definition updateProperty (type : ProcessPropertyType) (value : Value)
    (p : Properties) : Properties :=
  match type with
  | FixedDimensions =>
      {| cwd := cwd p; initialCwd := initialCwd p;
         fixedDimensions := value;
         title := title p; shellType := shellType p;
         hasChildProcesses := hasChildProcesses p;
         resolvedShellLaunchConfig := resolvedShellLaunchConfig p;
         overrideDimensions := overrideDimensions p;
         failedShellIntegrationActivation := failedShellIntegrationActivation p;
         usedShellIntegrationInjection := usedShellIntegrationInjection p;
         shellIntegrationInjectionFailureReason :=
           shellIntegrationInjectionFailureReason p |}
  | _ => p
  end.

(** [getCwd()]: [this._properties.cwd || this._initialCwd] *)
Definition getCwd (p : Properties) (_initialCwd : jsstring) : jsstring :=
  match cwd p with
  | [] => _initialCwd
  | _ :: _ => cwd p
  end.

(** A run of [updateProperty] calls. *)
Definition updates (us : list (ProcessPropertyType * Value)) (p : Properties)
    : Properties :=
  fold_left (fun p u => updateProperty (fst u) (snd u) p) us p.

End Props.

(** Two chunks: the unmasked text frame [a], and an unmasked close frame
    followed by one stray byte. *)
Definition text_a_chunk : Buffer := [x81; x01; x61].
Definition close_and_stray_chunk : Buffer := [x88; x00; x89].

(* ================================================================== *)
(** * Properties *)

(** ** The pseudo-PID *)

Section Hash.

Lemma ToInt32_shift (z : Z) : exists k, ToInt32 z = z + 2 ^ 32 * k.
Proof.
  exists (- ((z + 2 ^ 31) / 2 ^ 32)).
  unfold ToInt32. rewrite Z.mod_eq by lia. lia.
Qed.

Lemma ToInt32_periodic (z k : Z) : ToInt32 (z + 2 ^ 32 * k) = ToInt32 z.
Proof.
  unfold ToInt32.
  replace (z + 2 ^ 32 * k + 2 ^ 31) with (z + 2 ^ 31 + k * 2 ^ 32) by lia.
  now rewrite Z_mod_plus_full.
Qed.

Lemma ToInt32_range (z : Z) : - 2 ^ 31 <= ToInt32 z < 2 ^ 31.
Proof.
  unfold ToInt32.
  pose proof (Z.mod_pos_bound (z + 2 ^ 31) (2 ^ 32) ltac:(lia)). lia.
Qed.

Lemma band_diag (z : Z) : band z z = ToInt32 z.
Proof. unfold band. apply Z.land_diag. Qed.

Lemma shl_5 (h : Z) : exists k, shl h 5 = 32 * h + 2 ^ 32 * k.
Proof.
  unfold shl. change (Z.land 5 31) with 5.
  rewrite Z.shiftl_mul_pow2 by lia.
  destruct (ToInt32_shift h) as [k1 ->].
  destruct (ToInt32_shift ((h + 2 ^ 32 * k1) * 2 ^ 5)) as [k2 ->].
  exists (32 * k1 + k2). lia.
Qed.

(** One pass of the loop is one step of the rolling hash. *)
Lemma hash_step_rolling (h c : Z) : hash_step h c = rolling_step_31 h c.
Proof.
  unfold hash_step, rolling_step_31. rewrite band_diag.
  destruct (shl_5 h) as [k ->].
  replace (32 * h + 2 ^ 32 * k - h + c) with (31 * h + c + 2 ^ 32 * k) by lia.
  apply ToInt32_periodic.
Qed.

Lemma fold_hash_rolling (s : jsstring) (h : Z) :
  fold_left hash_step s h = fold_left rolling_step_31 s h.
Proof.
  revert h. induction s as [|c s IH]; intro h; simpl.
  - reflexivity.
  - rewrite hash_step_rolling. apply IH.
Qed.

Lemma fold_rolling_range (s : jsstring) (h : Z) :
  - 2 ^ 31 <= h < 2 ^ 31 ->
  - 2 ^ 31 <= fold_left rolling_step_31 s h < 2 ^ 31.
Proof.
  revert h. induction s as [|c s IH]; intros h Hh; simpl.
  - exact Hh.
  - apply IH. apply ToInt32_range.
Qed.

End Hash.

(** C9. [_hashSessionId] is the polynomial rolling hash with multiplier 31
    over the code units of the session id, truncated to a signed 32-bit
    integer at each step, with the absolute value taken at the end; as a
    function of the id it gives equal ids equal values, and the value is
    never negative (it is at most 2^31). *)
Theorem hashSessionId_rolling_hash :
  forall sessionId : jsstring,
    _hashSessionId sessionId = rolling_hash_31 sessionId
    /\ (forall other, other = sessionId -> _hashSessionId other = _hashSessionId sessionId)
    /\ 0 <= _hashSessionId sessionId <= 2 ^ 31.
Proof.
  intro sessionId. split; [|split].
  - unfold _hashSessionId, rolling_hash_31. now rewrite fold_hash_rolling.
  - intros other ->. reflexivity.
  - unfold _hashSessionId. rewrite fold_hash_rolling.
    pose proof (fold_rolling_range sessionId 0 ltac:(lia)). lia.
Qed.

Lemma hashSessionId_rolling_hash_witness :
  lit "abc123" = lit "abc123"
  /\ _hashSessionId (lit "abc123") = rolling_hash_31 (lit "abc123")
  /\ _hashSessionId (lit "abc123") = _hashSessionId (lit "abc123")
  /\ 0 <= _hashSessionId (lit "abc123") <= 2 ^ 31.
Proof.
  destruct (hashSessionId_rolling_hash (lit "abc123")) as (Hr & Hd & Hb).
  split; [reflexivity|]. split; [exact Hr|].
  split; [exact (Hd (lit "abc123") eq_refl) | exact Hb].
Defined.

(** The session id of the end-to-end scenario. *)
Example hashSessionId_abc123 : _hashSessionId (lit "abc123") = 1424436592.
Proof. reflexivity. Qed.

(** ** Bytes and buffers *)

Section Bytes.

Lemma b2z_range (b : byte) : 0 <= b2z b < 256.
Proof. unfold b2z. pose proof (Byte.to_N_bounded b). lia. Qed.

Lemma z2b_b2z (b : byte) : z2b (b2z b) = b.
Proof.
  unfold z2b. rewrite Z.mod_small by apply b2z_range.
  unfold b2z. rewrite N2Z.id, Byte.of_to_N. reflexivity.
Qed.

Lemma b2z_z2b (z : Z) : b2z (z2b z) = z mod 256.
Proof.
  pose proof (Z.mod_pos_bound z 256 ltac:(lia)) as Hm.
  unfold z2b, b2z.
  destruct (Byte.of_N (Z.to_N (z mod 256))) as [b|] eqn:E.
  - apply Byte.to_of_N in E. rewrite E. lia.
  - apply Byte.of_N_None_iff in E. lia.
Qed.

Lemma b2z_z2b_small (z : Z) : 0 <= z < 256 -> b2z (z2b z) = z.
Proof. intro Hz. rewrite b2z_z2b. now apply Z.mod_small. Qed.

Lemma lxor_byte_range (a b : Z) :
  0 <= a < 256 -> 0 <= b < 256 -> 0 <= Z.lxor a b < 256.
Proof.
  intros Ha Hb.
  assert (Hn : 0 <= Z.lxor a b) by (apply Z.lxor_nonneg; lia).
  split; [exact Hn|].
  destruct (Z.eq_dec (Z.lxor a b) 0) as [->|Hne]; [lia|].
  change 256 with (2 ^ 8). apply Z.log2_lt_pow2; [lia|].
  pose proof (Z.log2_lxor a b ltac:(lia) ltac:(lia)) as Hl.
  assert (La : Z.log2 a < 8).
  { destruct (Z.eq_dec a 0) as [->|]; [simpl; lia|].
    apply Z.log2_lt_pow2; simpl; lia. }
  assert (Lb : Z.log2 b < 8).
  { destruct (Z.eq_dec b 0) as [->|]; [simpl; lia|].
    apply Z.log2_lt_pow2; simpl; lia. }
  lia.
Qed.

(** Masking a byte twice with the same key byte gives it back. *)
Lemma xor_byte_twice (p k : byte) :
  z2b (Z.lxor (b2z (z2b (Z.lxor (b2z p) (b2z k)))) (b2z k)) = p.
Proof.
  rewrite b2z_z2b_small
    by (apply lxor_byte_range; apply b2z_range).
  rewrite Z.lxor_assoc, Z.lxor_nilpotent, Z.lxor_0_r.
  apply z2b_b2z.
Qed.

Lemma xor_from_twice (payload key : Buffer) (i : nat) :
  xor_from i (xor_from i payload key) key = payload.
Proof.
  revert i. induction payload as [|p rest IH]; intro i; simpl.
  - reflexivity.
  - rewrite xor_byte_twice, IH. reflexivity.
Qed.

Lemma xor_mask_twice (payload key : Buffer) :
  xor_mask (xor_mask payload key) key = payload.
Proof. apply xor_from_twice. Qed.

Lemma xor_from_length (payload key : Buffer) (i : nat) :
  length (xor_from i payload key) = length payload.
Proof.
  revert i. induction payload as [|p rest IH]; intro i; simpl; [|rewrite IH];
    reflexivity.
Qed.

Lemma xor_mask_length (payload key : Buffer) :
  length (xor_mask payload key) = length payload.
Proof. apply xor_from_length. Qed.

Lemma len_nonneg (data : Buffer) : 0 <= len data.
Proof. unfold len. lia. Qed.

Lemma len_app (a b : Buffer) : len (a ++ b) = len a + len b.
Proof. unfold len. rewrite length_app. lia. Qed.

Lemma be_value_snoc (bs : Buffer) (b : byte) :
  be_value (bs ++ [b]) = be_value bs * 256 + b2z b.
Proof. unfold be_value. now rewrite fold_left_app. Qed.

Lemma be_value_range (bs : Buffer) :
  0 <= be_value bs < 256 ^ len bs.
Proof.
  induction bs as [|b bs IH] using rev_ind.
  - cbn. lia.
  - rewrite be_value_snoc, len_app.
    pose proof (b2z_range b). pose proof (len_nonneg bs).
    change (len [b]) with 1.
    rewrite Z.pow_add_r, Z.pow_1_r by lia. nia.
Qed.

Lemma be_value_nonneg (bs : Buffer) : 0 <= be_value bs.
Proof. apply be_value_range. Qed.

End Bytes.

(** ** The loop body against the wire format *)

Section CodecFacts.

Lemma at_inside (data : Buffer) (i : Z) :
  0 <= i < len data -> at_ data i = Continue (Wire.byte_at data i).
Proof.
  intros [H0 H1]. unfold at_, Wire.byte_at, len in *.
  destruct (Z.ltb_spec i 0) as [|_]; [lia|].
  destruct (nth_error data (Z.to_nat i)) as [b|] eqn:E.
  - now rewrite (nth_error_nth _ _ x00 E).
  - apply nth_error_None in E. lia.
Qed.

Lemma subarray_inside (data : Buffer) (a b : Z) :
  0 <= a <= b -> b <= len data ->
  subarray data a b = Continue (Wire.slice data a b).
Proof.
  intros [H0 H1] H2. unfold subarray, Wire.slice.
  destruct (Z.ltb_spec a 0); [lia|].
  destruct (Z.ltb_spec b a); [lia|].
  destruct (Z.ltb_spec (len data) b); [lia|].
  reflexivity.
Qed.

Lemma land_7F_range (z : Z) : 0 <= z -> 0 <= Z.land z 0x7F < 128.
Proof.
  intro Hz. split.
  - apply Z.land_nonneg. lia.
  - change 0x7F with (Z.ones 7). rewrite Z.land_ones by lia.
    apply Z.mod_pos_bound. lia.
Qed.

Lemma byte_at_range (data : Buffer) (i : Z) : 0 <= Wire.byte_at data i < 256.
Proof. apply b2z_range. Qed.

Lemma declared_length_nonneg (data : Buffer) (offset : Z) :
  0 <= Wire.declared_length data offset.
Proof.
  unfold Wire.declared_length.
  destruct (_ || _).
  - apply be_value_nonneg.
  - apply land_7F_range, byte_at_range.
Qed.

Ltac frame_tail :=
  match goal with
  | |- context [Z.land ?b 128 =? 0] =>
      destruct (Z.land b 128 =? 0); cbn [negb bind]
  end;
  [ match goal with
    | |- context [?a + ?p >? len ?d] =>
        destruct (Z.gtb_spec (a + p) (len d));
        [ left; split; [right; right; right; lia | reflexivity]
        | right; split;
          [ intros [?|[?|[?|?]]]; lia
          | rewrite subarray_inside by lia; cbn [bind];
            repeat (f_equal; try lia) ] ]
    end
  | match goal with
    | |- context [?a + 4 >? len ?d] =>
        destruct (Z.gtb_spec (a + 4) (len d));
        [ left; split; [right; right; left; lia | reflexivity]
        | rewrite (subarray_inside d a (a + 4)) by lia; cbn [bind] ]
    end;
    match goal with
    | |- context [?a + ?p >? len ?d] =>
        destruct (Z.gtb_spec (a + p) (len d));
        [ left; split; [right; right; right; lia | reflexivity]
        | right; split;
          [ intros [?|[?|[?|?]]]; lia
          | rewrite subarray_inside by lia; cbn [bind];
            repeat (f_equal; try lia) ] ]
    end ].

Lemma parse_frame_spec (data : Buffer) (offset : Z) :
  0 <= offset ->
  (Wire.insufficient data offset /\ parse_frame data offset = BreakLoop)
  \/ (~ Wire.insufficient data offset
      /\ parse_frame data offset
         = Continue (Wire.frame_at data offset,
                     offset + Wire.frame_size data offset)).
Proof.
  intro Hoff.
  unfold parse_frame, break_if.
  destruct (Z.gtb_spec (offset + 2) (len data)) as [Hhdr|Hhdr].
  { left. split; [left; lia | reflexivity]. }
  rewrite !at_inside by lia. cbn [bind].
  unfold Wire.insufficient, Wire.frame_size, Wire.frame_at, Wire.key_size,
    Wire.is_masked, Wire.declared_length, Wire.ext_size.
  set (b2 := Wire.byte_at data (offset + 1)).
  pose proof (land_7F_range b2 (proj1 (byte_at_range _ _))) as Hl7.
  destruct (Z.eqb_spec (Z.land b2 127) 126) as [E126|E126]; cbn [orb].
  - destruct (Z.gtb_spec (offset + 2 + 2) (len data)) as [Hext|Hext].
    { left. split; [right; left; lia | reflexivity]. }
    unfold readUInt16BE. rewrite subarray_inside by lia. cbn [bind].
    pose proof (be_value_nonneg (Wire.slice data (offset + 2) (offset + 2 + 2))).
    frame_tail.
  - destruct (Z.eqb_spec (Z.land b2 127) 127) as [E127|E127].
    + destruct (Z.gtb_spec (offset + 2 + 8) (len data)) as [Hext|Hext].
      { left. split; [right; left; lia | reflexivity]. }
      unfold readBigUInt64BE. rewrite subarray_inside by lia. cbn [bind].
      pose proof (be_value_nonneg (Wire.slice data (offset + 2) (offset + 2 + 8))).
      frame_tail.
    + cbn [bind]. frame_tail.
Qed.

Lemma parse_frame_insufficient (data : Buffer) (offset : Z) :
  0 <= offset -> Wire.insufficient data offset ->
  parse_frame data offset = BreakLoop.
Proof.
  intros Hoff Hins.
  destruct (parse_frame_spec data offset Hoff) as [[_ E]|[Hn _]];
    [exact E | contradiction].
Qed.

Lemma parse_frame_continue (data : Buffer) (offset : Z) (r : Frame * Z) :
  0 <= offset -> parse_frame data offset = Continue r ->
  ~ Wire.insufficient data offset
  /\ r = (Wire.frame_at data offset, offset + Wire.frame_size data offset).
Proof.
  intros Hoff E.
  destruct (parse_frame_spec data offset Hoff) as [[_ E']|[Hn E']];
    rewrite E' in E; [discriminate|].
  split; [exact Hn | congruence].
Qed.

Lemma parse_frame_never_faults (data : Buffer) (offset : Z) :
  0 <= offset -> parse_frame data offset <> OutOfRange.
Proof.
  intros Hoff E.
  destruct (parse_frame_spec data offset Hoff) as [[_ E']|[_ E']];
    rewrite E' in E; discriminate.
Qed.

Lemma ext_size_range (data : Buffer) (offset : Z) :
  0 <= Wire.ext_size data offset <= 8.
Proof.
  unfold Wire.ext_size.
  destruct (_ =? 126); [lia|]. destruct (_ =? 127); lia.
Qed.

Lemma key_size_range (data : Buffer) (offset : Z) :
  0 <= Wire.key_size data offset <= 4.
Proof. unfold Wire.key_size. destruct (Wire.is_masked _ _); lia. Qed.

(** A pass that pushes a frame moves the offset forward by at least the
    two bytes of the header and not beyond the end of the buffer. *)
Lemma parse_frame_progress (data : Buffer) (offset offset' : Z) (f : Frame) :
  0 <= offset -> parse_frame data offset = Continue (f, offset') ->
  offset + 2 <= offset' <= len data.
Proof.
  intros Hoff E.
  apply parse_frame_continue in E as [Hn E]; [|exact Hoff].
  injection E as _ ->.
  pose proof (ext_size_range data offset).
  pose proof (key_size_range data offset).
  pose proof (declared_length_nonneg data offset).
  unfold Wire.insufficient in Hn. unfold Wire.frame_size in *. lia.
Qed.

Lemma parse_loop_S (fuel : nat) (data : Buffer) (offset : Z) (frames : list Frame) :
  parse_loop (S fuel) data offset frames
  = if offset <? len data then
      match parse_frame data offset with
      | Continue (frame, offset') =>
          parse_loop fuel data offset' (frames ++ [frame])
      | BreakLoop => Returned frames offset
      | OutOfRange => Faulted
      end
    else Returned frames offset.
Proof. reflexivity. Qed.

(** The loop returns as soon as it has one pass more than bytes left. *)
Lemma parse_loop_returns (fuel : nat) :
  forall (data : Buffer) (offset : Z) (frames : list Frame),
    0 <= offset -> len data - offset <= Z.of_nat fuel ->
    exists frames' offset',
      parse_loop (S fuel) data offset frames = Returned (frames ++ frames') offset'
      /\ offset <= offset'
      /\ (offset' <= len data \/ offset' = offset).
Proof.
  induction fuel as [|fuel IH]; intros data offset frames Hoff Hfuel;
    rewrite parse_loop_S; destruct (Z.ltb_spec offset (len data)) as [Hlt|Hge].
  - cbn in Hfuel. lia.
  - exists [], offset. rewrite app_nil_r. repeat split; lia.
  - destruct (parse_frame data offset) as [[f offset']| |] eqn:E.
    + pose proof (parse_frame_progress _ _ _ _ Hoff E) as Hp.
      destruct (IH data offset' (frames ++ [f])) as (fs & o & E' & Ho1 & Ho2);
        [lia | lia |].
      exists (f :: fs), o. rewrite E', <- app_assoc. repeat split; lia.
    + exists [], offset. rewrite app_nil_r. repeat split; lia.
    + now apply parse_frame_never_faults in E.
  - exists [], offset. rewrite app_nil_r. repeat split; lia.
Qed.

Lemma parse_run_returns (data : Buffer) :
  exists frames offset,
    parse_run data = Returned frames offset /\ 0 <= offset <= len data.
Proof.
  destruct (parse_loop_returns (length data) data 0 []) as (fs & o & E & H1 & H2);
    [lia | unfold len; lia |].
  exists fs, o. split; [exact E|]. pose proof (len_nonneg data). lia.
Qed.

Lemma byte_at_app (data extra : Buffer) (i : Z) :
  0 <= i < len data -> Wire.byte_at (data ++ extra) i = Wire.byte_at data i.
Proof.
  intros Hi. unfold Wire.byte_at, len in *. f_equal.
  apply app_nth1. lia.
Qed.

Lemma slice_app (data extra : Buffer) (a b : Z) :
  0 <= a -> b <= len data ->
  Wire.slice (data ++ extra) a b = Wire.slice data a b.
Proof.
  intros Ha Hb. unfold Wire.slice, len in *.
  destruct (Z.le_gt_cases b a) as [Hba|Hba].
  - replace (Z.to_nat (b - a)) with 0%nat by lia. reflexivity.
  - rewrite skipn_app, firstn_app.
    replace (Z.to_nat (b - a) - length (skipn (Z.to_nat a) data))%nat
      with 0%nat by (rewrite length_skipn; lia).
    cbn [firstn]. apply app_nil_r.
Qed.

(** Bytes appended to a buffer change nothing about a frame that is wholly
    inside it. *)
Lemma wire_extend (data extra : Buffer) (offset : Z) :
  0 <= offset -> ~ Wire.insufficient data offset ->
  ~ Wire.insufficient (data ++ extra) offset
  /\ Wire.frame_at (data ++ extra) offset = Wire.frame_at data offset
  /\ Wire.frame_size (data ++ extra) offset = Wire.frame_size data offset.
Proof.
  intros Hoff Hn.
  pose proof (ext_size_range data offset) as He.
  pose proof (key_size_range data offset) as Hk.
  pose proof (declared_length_nonneg data offset) as Hd.
  pose proof (len_nonneg extra) as Hx.
  unfold Wire.insufficient in Hn.
  assert (H2 : offset + 2 <= len data) by lia.
  assert (Hb1 : Wire.byte_at (data ++ extra) offset = Wire.byte_at data offset)
    by (apply byte_at_app; lia).
  assert (Hb2 : Wire.byte_at (data ++ extra) (offset + 1)
                = Wire.byte_at data (offset + 1))
    by (apply byte_at_app; lia).
  assert (Hext : Wire.ext_size (data ++ extra) offset = Wire.ext_size data offset)
    by (unfold Wire.ext_size; now rewrite Hb2).
  assert (Hm : Wire.is_masked (data ++ extra) offset = Wire.is_masked data offset)
    by (unfold Wire.is_masked; now rewrite Hb2).
  assert (Hkey : Wire.key_size (data ++ extra) offset = Wire.key_size data offset)
    by (unfold Wire.key_size; now rewrite Hm).
  assert (Hdecl : Wire.declared_length (data ++ extra) offset
                  = Wire.declared_length data offset).
  { unfold Wire.declared_length. rewrite Hb2, Hext.
    rewrite slice_app by lia. reflexivity. }
  assert (Hsize : Wire.frame_size (data ++ extra) offset
                  = Wire.frame_size data offset)
    by (unfold Wire.frame_size; now rewrite Hext, Hkey, Hdecl).
  split; [|split].
  - unfold Wire.insufficient. rewrite Hsize, Hext, Hkey, len_app. lia.
  - unfold Wire.frame_at. rewrite Hb1, Hm, Hext, Hkey, Hdecl.
    unfold Wire.frame_size in *.
    rewrite (slice_app data extra
               (offset + 2 + Wire.ext_size data offset + Wire.key_size data offset))
      by lia.
    destruct (Wire.is_masked data offset) eqn:Em; [|reflexivity].
    unfold Wire.key_size in *. rewrite Em in *.
    rewrite (slice_app data extra (offset + 2 + Wire.ext_size data offset))
      by lia.
    reflexivity.
  - exact Hsize.
Qed.

(** One complete frame, read off the wire format: all the bytes the header
    calls for are there, and they are the whole buffer. *)
Lemma one_complete_frame_wire (buf : Buffer) (frame : Frame) :
  one_complete_frame buf frame
  <-> ~ Wire.insufficient buf 0
      /\ Wire.frame_size buf 0 = len buf
      /\ frame = Wire.frame_at buf 0.
Proof.
  unfold one_complete_frame. split.
  - intro E. apply parse_frame_continue in E as [Hn E]; [|lia].
    injection E as -> Hs. repeat split; [exact Hn | lia].
  - intros (Hn & Hs & ->).
    destruct (parse_frame_spec buf 0 (Z.le_refl 0)) as [[Hi _]|[_ E]];
      [contradiction|].
    rewrite E. repeat f_equal. lia.
Qed.

Lemma parse_frame_extend (data extra : Buffer) (offset : Z) (r : Frame * Z) :
  0 <= offset -> parse_frame data offset = Continue r ->
  parse_frame (data ++ extra) offset = Continue r.
Proof.
  intros Hoff E.
  apply parse_frame_continue in E as [Hn ->]; [|exact Hoff].
  destruct (wire_extend data extra offset Hoff Hn) as (Hn' & Hf & Hs).
  destruct (parse_frame_spec (data ++ extra) offset Hoff) as [[Hi _]|[_ E']];
    [contradiction|].
  now rewrite E', Hf, Hs.
Qed.

End CodecFacts.

Section Layout.

Lemma slice_exact (pre mid post : Buffer) (a b : Z) :
  a = len pre -> b = len pre + len mid ->
  Wire.slice (pre ++ mid ++ post) a b = mid.
Proof.
  intros -> ->. unfold Wire.slice, len.
  replace (Z.to_nat (Z.of_nat (length pre) + Z.of_nat (length mid)
                     - Z.of_nat (length pre))) with (length mid) by lia.
  rewrite Nat2Z.id, skipn_app, skipn_all, Nat.sub_diag. cbn [skipn app].
  rewrite firstn_app, firstn_all, Nat.sub_diag. cbn [firstn]. apply app_nil_r.
Qed.

Lemma len_cons (b : byte) (l : Buffer) : len (b :: l) = 1 + len l.
Proof. unfold len. cbn [length]. lia. Qed.

(** A buffer laid out as the two header bytes, the extended length the
    second byte calls for, the mask key it calls for, and a body of the
    declared length is one complete frame. *)
Lemma layout_complete (b1 b2 : byte) (ext key body : Buffer) :
  let l7 := Z.land (b2z b2) 0x7F in
  let masked := negb (Z.land (b2z b2) 0x80 =? 0) in
  len ext = (if l7 =? 126 then 2 else if l7 =? 127 then 8 else 0) ->
  len key = (if masked then 4 else 0) ->
  len body = (if (l7 =? 126) || (l7 =? 127) then be_value ext else l7) ->
  one_complete_frame (b1 :: b2 :: ext ++ key ++ body)
    {| opcode := Z.land (b2z b1) 0x0F;
       payload := if masked then xor_mask body key else body |}.
Proof.
  intros l7 masked Hext Hkey Hbody.
  set (data := b1 :: b2 :: ext ++ key ++ body).
  assert (Hb1 : Wire.byte_at data 0 = b2z b1) by reflexivity.
  assert (Hb2 : Wire.byte_at data (0 + 1) = b2z b2) by reflexivity.
  assert (Hes : Wire.ext_size data 0 = len ext)
    by (unfold Wire.ext_size; rewrite Hb2; symmetry; exact Hext).
  assert (Hm : Wire.is_masked data 0 = masked)
    by (unfold Wire.is_masked; now rewrite Hb2).
  assert (Hks : Wire.key_size data 0 = len key)
    by (unfold Wire.key_size; rewrite Hm; symmetry; exact Hkey).
  assert (Hsl : Wire.slice data (0 + 2) (0 + 2 + len ext) = ext)
    by (apply (slice_exact [b1; b2] ext (key ++ body)); reflexivity).
  assert (Hdl : Wire.declared_length data 0 = len body).
  { unfold Wire.declared_length. rewrite Hb2, Hes, Hsl. symmetry. exact Hbody. }
  assert (Hlen : len data = 2 + len ext + len key + len body).
  { unfold data. rewrite !len_cons, !len_app. lia. }
  assert (Hfs : Wire.frame_size data 0 = len data).
  { unfold Wire.frame_size. rewrite Hes, Hks, Hdl, Hlen. reflexivity. }
  pose proof (len_nonneg ext). pose proof (len_nonneg key).
  pose proof (len_nonneg body).
  unfold one_complete_frame.
  destruct (parse_frame_spec data 0 (Z.le_refl 0)) as [[Hins _]|[_ E]].
  { exfalso. unfold Wire.insufficient in Hins.
    rewrite Hfs, Hes, Hks, Hlen in Hins. lia. }
  rewrite E, Hfs. f_equal. f_equal.
  unfold Wire.frame_at. rewrite Hb1, Hm, Hes, Hks, Hdl. f_equal.
  assert (Hbody_slice :
            Wire.slice data (0 + 2 + len ext + len key)
              (0 + 2 + len ext + len key + len body) = body).
  { replace data with (([b1; b2] ++ ext ++ key) ++ body ++ [])
      by (rewrite app_nil_r; cbn [app]; now rewrite <- app_assoc).
    apply slice_exact; rewrite !len_app; change (len [b1; b2]) with 2; lia. }
  rewrite Hbody_slice.
  destruct masked; [|reflexivity].
  f_equal.
  replace data with (([b1; b2] ++ ext) ++ key ++ body)
    by reflexivity.
  apply slice_exact.
  - rewrite len_app. change (len [b1; b2]) with 2. lia.
  - rewrite len_app. change (len [b1; b2]) with 2. lia.
Qed.

End Layout.

(** ** The encoder *)

Section Encoder.
Context `{Host}.

Lemma be_value_cons (b : byte) (bs : Buffer) :
  be_value (b :: bs) = b2z b * 256 ^ len bs + be_value bs.
Proof.
  induction bs as [|c bs IH] using rev_ind.
  - cbn. lia.
  - rewrite app_comm_cons, !be_value_snoc, IH, len_app.
    change (len [c]) with 1.
    rewrite Z.pow_add_r, Z.pow_1_r by (pose proof (len_nonneg bs); lia). lia.
Qed.

Lemma be_bytes_length (n : nat) (v : Z) : length (be_bytes n v) = n.
Proof. induction n as [|n IH]; cbn [be_bytes length]; [|rewrite IH]; reflexivity. Qed.

Lemma be_value_be_bytes (n : nat) (v : Z) :
  be_value (be_bytes n v) = v mod 256 ^ Z.of_nat n.
Proof.
  induction n as [|n IH].
  - cbn. now rewrite Z.mod_1_r.
  - cbn [be_bytes]. rewrite be_value_cons, IH, b2z_z2b.
    unfold len. rewrite be_bytes_length.
    rewrite Z.shiftr_div_pow2 by lia.
    replace (2 ^ (8 * Z.of_nat n)) with (256 ^ Z.of_nat n)
      by (change 256 with (2 ^ 8); rewrite <- Z.pow_mul_r by lia; reflexivity).
    rewrite Nat2Z.inj_succ, Z.pow_succ_r by lia.
    rewrite (Z.mul_comm 256), Z.rem_mul_r by lia. lia.
Qed.

Lemma lor_128_small (n : Z) : 0 <= n < 128 -> Z.lor 0x80 n = 128 + n.
Proof.
  intro Hn.
  assert (Hd : Z.land 128 n = 0).
  { replace n with (Z.land n (Z.ones 7))
      by (rewrite Z.land_ones by lia; apply Z.mod_small; simpl; lia).
    rewrite (Z.land_comm n), Z.land_assoc. reflexivity. }
  rewrite <- Z.lxor_lor by exact Hd.
  symmetry. apply Z.add_nocarry_lxor. exact Hd.
Qed.

Lemma header_byte2 (n : Z) :
  0 <= n < 128 ->
  Z.land (b2z (z2b (Z.lor 0x80 n))) 0x7F = n
  /\ negb (Z.land (b2z (z2b (Z.lor 0x80 n))) 0x80 =? 0) = true.
Proof.
  intro Hn. rewrite lor_128_small by exact Hn.
  rewrite b2z_z2b_small by lia. split.
  - change 0x7F with (Z.ones 7). rewrite Z.land_ones by lia.
    change (2 ^ 7) with 128.
    replace (128 + n) with (n + 1 * 128) by lia.
    rewrite Z_mod_plus_full. apply Z.mod_small. lia.
  - rewrite <- lor_128_small by exact Hn.
    rewrite Z.land_lor_distr_l. change (Z.land 128 128) with 128.
    destruct (Z.eqb_spec (Z.lor 128 (Z.land n 128)) 0) as [E|]; [|reflexivity].
    apply Z.lor_eq_0_iff in E. lia.
Qed.

Lemma createWebSocketFrame_shape (data : FrameData) (mask : Buffer) :
  length mask = 4%nat ->
  _createWebSocketFrame data mask
  = z2b (Z.lor 0x80 (frame_opcode data))
      :: z2b (Z.lor 0x80 (length_field (len (frame_payload data))))
      :: extended_length (len (frame_payload data))
      ++ mask ++ xor_mask (frame_payload data) mask.
Proof.
  intro Hm.
  destruct mask as [|m0 [|m1 [|m2 [|m3 [|m4 mask]]]]]; try discriminate Hm.
  unfold _createWebSocketFrame, length_field, extended_length.
  destruct (len (frame_payload data) <? 126); [reflexivity|].
  destruct (len (frame_payload data) <? 65536); reflexivity.
Qed.

(** What [_createWebSocketFrame] returns is one complete frame, and it
    decodes to the opcode and the payload it was made from. *)
Lemma createWebSocketFrame_complete (data : FrameData) (mask : Buffer) :
  length mask = 4%nat ->
  len (frame_payload data) < 2 ^ 64 ->
  one_complete_frame (_createWebSocketFrame data mask)
    {| opcode := frame_opcode data; payload := frame_payload data |}.
Proof.
  intros Hm Hlen.
  rewrite createWebSocketFrame_shape by exact Hm.
  set (p := frame_payload data) in *.
  pose proof (len_nonneg p) as Hp.
  assert (Hl7 : 0 <= length_field (len p) < 128).
  { unfold length_field.
    destruct (Z.ltb_spec (len p) 126); [lia|].
    destruct (Z.ltb_spec (len p) 65536); lia. }
  destruct (header_byte2 _ Hl7) as [H7 Hmask].
  pose proof (layout_complete (z2b (Z.lor 0x80 (frame_opcode data)))
                (z2b (Z.lor 0x80 (length_field (len p))))
                (extended_length (len p)) mask (xor_mask p mask)) as L.
  cbv zeta in L. rewrite H7, Hmask in L.
  rewrite xor_mask_twice in L.
  replace (Z.land (b2z (z2b (Z.lor 128 (frame_opcode data)))) 15)
    with (frame_opcode data) in L by (destruct data; reflexivity).
  apply L.
  - unfold length_field, extended_length.
    destruct (Z.ltb_spec (len p) 126).
    + destruct (Z.eqb_spec (len p) 126); [lia|].
      destruct (Z.eqb_spec (len p) 127); [lia|]. reflexivity.
    + destruct (Z.ltb_spec (len p) 65536); reflexivity.
  - unfold len. rewrite Hm. reflexivity.
  - unfold len at 1. rewrite xor_mask_length. fold (len p).
    unfold length_field, extended_length.
    destruct (Z.ltb_spec (len p) 126).
    + destruct (Z.eqb_spec (len p) 126); [lia|].
      destruct (Z.eqb_spec (len p) 127); [lia|]. reflexivity.
    + destruct (Z.ltb_spec (len p) 65536); cbn [Z.eqb orb Pos.eqb].
      * rewrite be_value_be_bytes. symmetry. apply Z.mod_small.
        change (256 ^ Z.of_nat 2) with 65536. lia.
      * rewrite be_value_be_bytes. symmetry. apply Z.mod_small.
        change (256 ^ Z.of_nat 8) with (2 ^ 64). lia.
Qed.

End Encoder.

(** ** The decoder *)

(** C10. [_parseWebSocketFrames] is total and never reads outside its
    input: on every buffer the run returns a list of frames, with an offset
    inside the buffer, and no access of the loop body at an offset from 0 on
    is out of range; and whenever the bytes left at an offset are too few
    for the 2-byte header, for the 2- or 8-byte extended length, for the
    4-byte mask key or for the declared payload, the loop stops there and
    returns the frames decoded so far. *)
Theorem parseWebSocketFrames_total_and_bounded :
  forall data : Buffer,
    (exists frames offset,
        parse_run data = Returned frames offset
        /\ _parseWebSocketFrames data = Some frames
        /\ 0 <= offset <= len data)
    /\ (forall offset, 0 <= offset -> parse_frame data offset <> OutOfRange)
    /\ (forall (fuel : nat) (offset : Z) (frames : list Frame),
           0 <= offset < len data ->
           Wire.insufficient data offset ->
           parse_loop (S fuel) data offset frames = Returned frames offset).
Proof.
  intro data. split; [|split].
  - destruct (parse_run_returns data) as (frames & offset & E & Hb).
    exists frames, offset. unfold _parseWebSocketFrames. rewrite E. auto.
  - intros offset Hoff. now apply parse_frame_never_faults.
  - intros fuel offset frames [H0 H1] Hins.
    rewrite parse_loop_S.
    destruct (Z.ltb_spec offset (len data)); [|lia].
    now rewrite parse_frame_insufficient.
Qed.

Lemma parseWebSocketFrames_total_and_bounded_witness :
  0 <= 3 < len frame_and_fragment
  /\ Wire.insufficient frame_and_fragment 3
  /\ parse_loop 1 frame_and_fragment 3 [{| opcode := 0x01; payload := [x61] |}]
     = Returned [{| opcode := 0x01; payload := [x61] |}] 3.
Proof.
  assert (H1 : 0 <= 3 < len frame_and_fragment)
    by (vm_compute; split; [discriminate | reflexivity]).
  assert (H2 : Wire.insufficient frame_and_fragment 3)
    by (right; right; left; vm_compute; reflexivity).
  split; [exact H1|]. split; [exact H2|].
  exact (proj2 (proj2 (parseWebSocketFrames_total_and_bounded frame_and_fragment))
           0%nat 3 [{| opcode := 0x01; payload := [x61] |}] H1 H2).
Defined.

(** The whole run on the same buffer: one frame, and the offset left at the
    fragment. *)
Example parse_frame_and_fragment :
  parse_run frame_and_fragment
  = Returned [{| opcode := 0x01; payload := [x61] |}] 3.
Proof. reflexivity. Qed.

(** One complete frame, in the decoder's own terms, followed by fewer than
    two bytes. *)
Lemma complete_frame_then_short_tail (buf trailing : Buffer) (frame : Frame) :
  one_complete_frame buf frame ->
  (length trailing < 2)%nat ->
  parse_run (buf ++ trailing) = Returned [frame] (len buf)
  /\ _parseWebSocketFrames (buf ++ trailing) = Some [frame].
Proof.
  intros Hone Hshort.
  unfold one_complete_frame in Hone.
  pose proof (parse_frame_progress _ _ _ _ (Z.le_refl 0) Hone) as Hlen.
  pose proof (parse_frame_extend buf trailing 0 _ (Z.le_refl 0) Hone) as Hext.
  assert (Hrun : parse_run (buf ++ trailing) = Returned [frame] (len buf)).
  { unfold parse_run. rewrite parse_loop_S, len_app.
    pose proof (len_nonneg trailing) as Ht.
    destruct (Z.ltb_spec 0 (len buf + len trailing)); [|lia].
    rewrite Hext. cbn [app].
    destruct (length (buf ++ trailing)) as [|fuel] eqn:El.
    { rewrite length_app in El. unfold len in Hlen. lia. }
    rewrite parse_loop_S, len_app.
    destruct (Z.ltb_spec (len buf) (len buf + len trailing)) as [Hlt|Hge];
      [|reflexivity].
    rewrite parse_frame_insufficient; [reflexivity | lia |].
    left. rewrite len_app. unfold len in *. lia. }
  split; [exact Hrun|].
  unfold _parseWebSocketFrames. now rewrite Hrun.
Qed.

Lemma xor_from_unmasked (body key : Buffer) (i : nat) :
  xor_from i body key
  = map (fun ip => z2b (Z.lxor (b2z (snd ip))
                          (b2z (nth (fst ip mod 4)%nat key x00))))
      (combine (seq i (length body)) body).
Proof.
  revert i. induction body as [|p body IH]; intro i; [reflexivity|].
  cbn [xor_from length seq combine map fst snd]. now rewrite IH.
Qed.

Lemma be_value_big_endian (bs : Buffer) : be_value bs = big_endian bs.
Proof.
  induction bs as [|b bs IH]; [reflexivity|].
  rewrite be_value_cons, IH. reflexivity.
Qed.

(** The loop that unmasks computes the payload the wire format defines. *)
Lemma xor_mask_unmasked (body key : Buffer) :
  xor_mask body key = unmasked body key.
Proof. apply xor_from_unmasked. Qed.

(** C5. For a buffer made of exactly one complete frame followed by fewer
    than two trailing bytes, [_parseWebSocketFrames] returns exactly that
    one frame, and the offset stays at the end of the frame: nothing of the
    trailing bytes is consumed or emitted.  The complete frame is given by
    its layout on the wire: the two header bytes, the extended length the
    length field calls for (2 bytes after 126, 8 after 127, big-endian), a
    4-byte key when the mask bit is set, and a body of the declared length;
    the frame returned has the low four bits of the first byte as opcode
    and the body, unmasked when there is a key, as payload. *)
Theorem one_frame_then_short_tail :
  forall (b1 b2 : byte) (ext key body trailing : Buffer),
    let l7 := Z.land (b2z b2) 0x7F in
    let masked := negb (Z.land (b2z b2) 0x80 =? 0) in
    let buf := b1 :: b2 :: ext ++ key ++ body in
    let frame := {| opcode := Z.land (b2z b1) 0x0F;
                    payload := if masked then unmasked body key else body |} in
    Z.of_nat (length ext)
    = (if l7 =? 126 then 2 else if l7 =? 127 then 8 else 0) ->
    Z.of_nat (length key) = (if masked then 4 else 0) ->
    Z.of_nat (length body)
    = (if (l7 =? 126) || (l7 =? 127) then big_endian ext else l7) ->
    (length trailing < 2)%nat ->
    parse_run (buf ++ trailing)
    = Returned [frame] (Z.of_nat (length buf))
    /\ _parseWebSocketFrames (buf ++ trailing) = Some [frame].
Proof.
  intros b1 b2 ext key body trailing l7 masked buf frame He Hk Hb Hshort.
  rewrite <- be_value_big_endian in Hb.
  pose proof (layout_complete b1 b2 ext key body He Hk Hb) as Hone.
  fold l7 masked buf in Hone.
  rewrite xor_mask_unmasked in Hone. fold frame in Hone.
  exact (complete_frame_then_short_tail buf trailing frame Hone Hshort).
Qed.

Lemma one_frame_then_short_tail_witness :
  Z.of_nat (length ([] : Buffer)) = 0
  /\ Z.of_nat (length [x37; xfa; x21; x3d]) = 4
  /\ Z.of_nat (length [x7f; x9f; x4d]) = 3
  /\ (length [x81] < 2)%nat
  /\ parse_run ((x81 :: x83 :: [] ++ [x37; xfa; x21; x3d] ++ [x7f; x9f; x4d])
                  ++ [x81])
     = Returned [{| opcode := 0x01; payload := [x48; x65; x6c] |}] 9
  /\ parse_run ((x88 :: x00 :: [] ++ [] ++ []) ++ [])
     = Returned [{| opcode := 0x08; payload := [] |}] 2.
Proof.
  assert (H0 : Z.of_nat (length ([] : Buffer)) = 0) by reflexivity.
  assert (H1 : Z.of_nat (length [x37; xfa; x21; x3d]) = 4) by reflexivity.
  assert (H2 : Z.of_nat (length [x7f; x9f; x4d]) = 3) by reflexivity.
  assert (H3 : (length [x81] < 2)%nat) by exact (le_n 2).
  assert (H4 : (length ([] : Buffer) < 2)%nat) by exact (le_S 1 1 (le_n 1)).
  split; [exact H0|]. split; [exact H1|]. split; [exact H2|]. split; [exact H3|].
  split.
  - exact (proj1 (one_frame_then_short_tail x81 x83 [] [x37; xfa; x21; x3d]
                    [x7f; x9f; x4d] [x81] H0 H1 H2 H3)).
  - exact (proj1 (one_frame_then_short_tail x88 x00 [] [] [] [] H0 H0 H0 H4)).
Defined.

Lemma parse_run_one_frame (buf : Buffer) (frame : Frame) :
  one_complete_frame buf frame ->
  parse_run buf = Returned [frame] (len buf)
  /\ _parseWebSocketFrames buf = Some [frame].
Proof.
  intro Hone.
  assert (Hrun : parse_run buf = Returned [frame] (len buf)).
  { unfold one_complete_frame in Hone.
    pose proof (parse_frame_progress _ _ _ _ (Z.le_refl 0) Hone) as Hlen.
    unfold parse_run. rewrite parse_loop_S.
    destruct (Z.ltb_spec 0 (len buf)); [|lia].
    rewrite Hone. cbn [app].
    destruct (length buf) as [|fuel] eqn:El; [unfold len in Hlen; lia|].
    rewrite parse_loop_S.
    destruct (Z.ltb_spec (len buf) (len buf)); [lia | reflexivity]. }
  split; [exact Hrun|].
  unfold _parseWebSocketFrames. now rewrite Hrun.
Qed.

(** Encoding then decoding gives the frame back for every payload below
    2^64 bytes. *)
Lemma createWebSocketFrame_roundtrip_any `{Host} (data : FrameData) (mask : Buffer) :
  length mask = 4%nat ->
  len (frame_payload data) < 2 ^ 64 ->
  _parseWebSocketFrames (_createWebSocketFrame data mask)
  = Some [{| opcode := frame_opcode data; payload := frame_payload data |}].
Proof.
  intros Hm Hlen.
  apply parse_run_one_frame, createWebSocketFrame_complete; assumption.
Qed.

(** C1. For every payload of length 0, 1, 125, 126, 65535 or 65536, building
    a frame with [_createWebSocketFrame] and parsing the resulting buffer
    with [_parseWebSocketFrames] yields exactly one frame with the original
    opcode and payload: for a string, the text opcode 0x01 and the UTF-8
    bytes of the string; for a buffer, the binary opcode 0x02 and the bytes
    of the buffer. *)
Theorem createWebSocketFrame_roundtrip :
  forall (host : Host) (mask : Buffer),
    length mask = 4%nat ->
    (forall s : jsstring,
        In (Z.of_nat (length (utf8_encode s))) [0; 1; 125; 126; 65535; 65536] ->
        _parseWebSocketFrames (_createWebSocketFrame (Text s) mask)
        = Some [{| opcode := 0x01; payload := utf8_encode s |}])
    /\ (forall b : Buffer,
           In (Z.of_nat (length b)) [0; 1; 125; 126; 65535; 65536] ->
           _parseWebSocketFrames (_createWebSocketFrame (Binary b) mask)
           = Some [{| opcode := 0x02; payload := b |}]).
Proof.
  intros host mask Hm.
  assert (Hbig : forall n, In n [0; 1; 125; 126; 65535; 65536] -> n < 2 ^ 64).
  { intros n HL. cbn [In] in HL.
    assert (n <= 65536) by lia.
    change (2 ^ 64) with 18446744073709551616. lia. }
  split.
  - intros s HL.
    exact (createWebSocketFrame_roundtrip_any (Text s) mask Hm (Hbig _ HL)).
  - intros b HL.
    exact (createWebSocketFrame_roundtrip_any (Binary b) mask Hm (Hbig _ HL)).
Qed.

Lemma createWebSocketFrame_roundtrip_witness :
  length [x12; x34; x56; x78] = 4%nat
  /\ In (Z.of_nat (length (utf8_encode (lit "a"))))
       [0; 1; 125; 126; 65535; 65536]
  /\ In (Z.of_nat (length (repeat xff 126))) [0; 1; 125; 126; 65535; 65536]
  /\ _parseWebSocketFrames
       (_createWebSocketFrame (Text (lit "a")) [x12; x34; x56; x78])
     = Some [{| opcode := 0x01; payload := [x61] |}]
  /\ _parseWebSocketFrames
       (_createWebSocketFrame (Binary (repeat xff 126)) [x12; x34; x56; x78])
     = Some [{| opcode := 0x02; payload := repeat xff 126 |}].
Proof.
  assert (Hm : length [x12; x34; x56; x78] = 4%nat) by reflexivity.
  assert (Ht : In (Z.of_nat (length (utf8_encode (lit "a"))))
                  [0; 1; 125; 126; 65535; 65536])
    by (right; left; reflexivity).
  assert (Hb : In (Z.of_nat (length (repeat xff 126)))
                  [0; 1; 125; 126; 65535; 65536])
    by (right; right; right; left; reflexivity).
  split; [exact Hm|]. split; [exact Ht|]. split; [exact Hb|].
  destruct (createWebSocketFrame_roundtrip example_host [x12; x34; x56; x78] Hm)
    as [Htext Hbin].
  split; [exact (Htext (lit "a") Ht) | exact (Hbin (repeat xff 126) Hb)].
Defined.

(** The first length that takes the 16-bit form, run through both
    functions. *)
Example roundtrip_126 :
  _parseWebSocketFrames
    (_createWebSocketFrame (Binary (repeat x61 126)) [x12; x34; x56; x78])
  = Some [{| opcode := 0x02; payload := repeat x61 126 |}].
Proof. vm_compute. reflexivity. Qed.

Lemma xor_from_nth_error (payload key : Buffer) (i j : nat) :
  nth_error (xor_from i payload key) j
  = option_map
      (fun p => z2b (Z.lxor (b2z p) (b2z (nth ((i + j) mod 4)%nat key x00))))
      (nth_error payload j).
Proof.
  revert i j. induction payload as [|p rest IH]; intros i j.
  - destruct j; reflexivity.
  - destruct j as [|j]; cbn [xor_from nth_error option_map].
    + now rewrite Nat.add_0_r.
    + rewrite IH. now rewrite Nat.add_succ_comm.
Qed.

Lemma header_length_shape (n : Z) :
  header_length n = (2 + length (extended_length n) + 4)%nat.
Proof.
  unfold header_length, extended_length.
  destruct (n <? 126); [reflexivity|]. destruct (n <? 65536); reflexivity.
Qed.

(** A frame from the encoder carries, masked, the payload the encoder
    takes from its argument. *)
Lemma createWebSocketFrame_masked_any `{Host} (data : FrameData) (mask : Buffer) :
  length mask = 4%nat ->
  masked_frame_of (_createWebSocketFrame data mask) mask (frame_payload data).
Proof.
  intros Hm. unfold masked_frame_of. fold (len (frame_payload data)).
  set (frame := _createWebSocketFrame data mask).
  set (hl := header_length (len (frame_payload data))).
  set (maskKey := firstn 4 (skipn (hl - 4) frame)).
  set (transmitted := skipn hl frame).
  set (p := frame_payload data) in *.
  assert (Hk : maskKey = mask /\ transmitted = xor_mask p mask).
  { subst maskKey transmitted hl frame.
    rewrite createWebSocketFrame_shape by exact Hm. fold p.
    rewrite header_length_shape.
    set (ext := extended_length (len p)).
    replace (2 + length ext + 4 - 4)%nat with (2 + length ext)%nat by lia.
    cbn [Nat.add skipn].
    replace (S (S (length ext + 4))) with (2 + (length ext + 4))%nat by lia.
    cbn [Nat.add skipn].
    split.
    - rewrite skipn_app, skipn_all, Nat.sub_diag. cbn [skipn app].
      rewrite <- Hm, firstn_app, firstn_all, Nat.sub_diag. cbn [firstn].
      apply app_nil_r.
    - rewrite app_assoc, skipn_app.
      replace (length ext + 4)%nat with (length (ext ++ mask))
        by (rewrite length_app; lia).
      rewrite skipn_all, Nat.sub_diag. reflexivity. }
  destruct Hk as [Hkey Htr].
  assert (Hback : xor_mask transmitted maskKey = p)
    by (rewrite Hkey, Htr; apply xor_mask_twice).
  split; [|split; [|split; [|split; [|split]]]].
  - subst frame. rewrite createWebSocketFrame_shape by exact Hm.
    eexists. split; [reflexivity|].
    assert (Hl7 : 0 <= length_field (len (frame_payload data)) < 128).
    { pose proof (len_nonneg (frame_payload data)).
      unfold length_field.
      destruct (Z.ltb_spec (len (frame_payload data)) 126); [lia|].
      destruct (Z.ltb_spec (len (frame_payload data)) 65536); lia. }
    rewrite b2z_z2b_small by (rewrite lor_128_small by exact Hl7; lia).
    rewrite Z.lor_spec. reflexivity.
  - now rewrite Hkey.
  - exact Hkey.
  - rewrite Htr. apply xor_mask_length.
  - intro i. rewrite <- Hback at 1. unfold xor_mask.
    rewrite xor_from_nth_error. reflexivity.
  - rewrite <- xor_mask_unmasked. exact Hback.
Qed.

(** C4. Every frame [_createWebSocketFrame] produces has the mask bit (bit 7
    of the second byte) set and carries the 4-byte mask key right before the
    payload, and XOR-ing the transmitted payload byte at each index [i] with
    the key byte at [i mod 4] gives back the original input: the UTF-8
    bytes of the string for a string, the bytes of the buffer for a
    buffer. *)
Theorem createWebSocketFrame_masked :
  forall (host : Host) (mask : Buffer),
    length mask = 4%nat ->
    (forall s : jsstring,
        masked_frame_of (_createWebSocketFrame (Text s) mask) mask
          (utf8_encode s))
    /\ (forall b : Buffer,
           masked_frame_of (_createWebSocketFrame (Binary b) mask) mask b).
Proof.
  intros host mask Hm. split.
  - intro s. exact (createWebSocketFrame_masked_any (Text s) mask Hm).
  - intro b. exact (createWebSocketFrame_masked_any (Binary b) mask Hm).
Qed.

Lemma createWebSocketFrame_masked_witness :
  length [x12; x34; x56; x78] = 4%nat
  /\ unmasked
       (skipn 6 (_createWebSocketFrame (Text (lit "hello")) [x12; x34; x56; x78]))
       [x12; x34; x56; x78]
     = [x68; x65; x6c; x6c; x6f]
  /\ unmasked
       (skipn 6 (_createWebSocketFrame (Binary [x00; xff]) [x12; x34; x56; x78]))
       [x12; x34; x56; x78]
     = [x00; xff].
Proof.
  assert (Hm : length [x12; x34; x56; x78] = 4%nat) by reflexivity.
  split; [exact Hm|].
  destruct (createWebSocketFrame_masked example_host [x12; x34; x56; x78] Hm)
    as [Htext Hbin].
  split.
  - destruct (Htext (lit "hello")) as (_ & _ & Hk & _ & _ & Hx).
    cbv zeta in Hk, Hx. rewrite Hk in Hx. exact Hx.
  - destruct (Hbin [x00; xff]) as (_ & _ & Hk & _ & _ & Hx).
    cbv zeta in Hk, Hx. rewrite Hk in Hx. exact Hx.
Defined.

(** ** Exit events *)

Section Exit.
Context `{Host}.

Lemma exit_codes_fire (e : Event) (s : Process) :
  exit_codes (fire e s)
  = exit_codes s ++ match e with ProcessExit c => [c] | _ => [] end.
Proof.
  unfold exit_codes. cbn [fired fire]. rewrite flat_map_app. cbn [flat_map].
  now rewrite app_nil_r.
Qed.

Lemma handle_close_frame (frame : Frame) (s : Process) :
  opcode frame = 0x08 ->
  handle_frame frame s = fire (ProcessExit 0) (Upd.exitCode (Some 0) s).
Proof. intro E. unfold handle_frame. rewrite E. reflexivity. Qed.

Lemma exit_codes_on_socket_close (s : Process) :
  exit_codes (on_socket_close s)
  = exit_codes s ++ [match _exitCode s with Some c => c | None => 0 end].
Proof. unfold on_socket_close. now rewrite exit_codes_fire. Qed.

Lemma on_socket_data_frames (chunk : Buffer) (frames : list Frame) (s : Process) :
  _parseWebSocketFrames chunk = Some frames ->
  on_socket_data chunk s = fold_left (fun s frame => handle_frame frame s) frames s.
Proof. intro E. unfold on_socket_data. now rewrite E. Qed.

End Exit.

(** C2 (amended). The exit event is not latched: a close frame (opcode
    0x08) fires one exit event with code 0, and a socket-level close
    callback that follows on the same channel fires one more, again with
    code 0. *)
Theorem close_frame_then_socket_close :
  forall (host : Host) (s : Process) (chunk body : Buffer),
    _parseWebSocketFrames chunk = Some [{| opcode := 0x08; payload := body |}] ->
    let s1 := on_socket_data chunk s in
    let s2 := on_socket_close s1 in
    exit_codes s1 = exit_codes s ++ [0]
    /\ exit_codes s2 = exit_codes s ++ [0; 0].
Proof.
  intros host s chunk body Hparse s1 s2. subst s1 s2.
  rewrite (on_socket_data_frames _ _ _ Hparse). cbn [fold_left].
  rewrite handle_close_frame by reflexivity.
  split.
  - now rewrite exit_codes_fire.
  - rewrite exit_codes_on_socket_close, exit_codes_fire.
    cbn [_exitCode fire Upd.exitCode]. now rewrite <- app_assoc.
Qed.

Lemma close_frame_then_socket_close_witness :
  _parseWebSocketFrames close_frame_1001
  = Some [{| opcode := 0x08; payload := [x03; xe9] |}]
  /\ exit_codes (on_socket_close (on_socket_data close_frame_1001 started_abc123))
     = [0; 0].
Proof.
  assert (Hp : _parseWebSocketFrames close_frame_1001
               = Some [{| opcode := 0x08; payload := [x03; xe9] |}])
    by reflexivity.
  split; [exact Hp|].
  exact (proj2 (close_frame_then_socket_close example_host started_abc123
                  close_frame_1001 [x03; xe9] Hp)).
Defined.

(** After a successful start, a chunk holding one close frame and then the
    close callback of the socket: two exit events. *)
Lemma exit_fired_twice :
  let s1 := on_socket_data [x88; x00] started_abc123 in
  let s2 := on_socket_close s1 in
  exit_codes started_abc123 = []
  /\ exit_codes s1 = [0]
  /\ exit_codes s2 = [0; 0]
  /\ ~ (length (exit_codes s2) <= 1)%nat.
Proof.
  cbv zeta. repeat split; try reflexivity.
  vm_compute. intro Hle. inversion Hle as [|? Hle']. inversion Hle'.
Qed.

(** C8 (amended). In the raw-socket variant a close frame records the exit
    code 0 whatever the frame carries, and the close callback of the socket
    keeps an exit code that is set and records 0 otherwise; in the variant
    built on [ws] the close callback records 0 for the close code 1000 and
    1 for every other close code. *)
Theorem exit_code_recorded :
  forall (host : Host) (s : Process),
    (forall frame : Frame,
        opcode frame = 0x08 -> _exitCode (handle_frame frame s) = Some 0)
    /\ _exitCode (on_socket_close s)
       = Some (match _exitCode s with Some c => c | None => 0 end)
    /\ (forall code : Z,
           _exitCode (WsVariant.on_close code s)
           = Some (if code =? 1000 then 0 else 1)).
Proof.
  intros host s. split; [|split].
  - intros frame E. now rewrite handle_close_frame.
  - reflexivity.
  - intro code. reflexivity.
Qed.

Lemma exit_code_recorded_witness :
  opcode {| opcode := 0x08; payload := [x03; xe9] |} = 0x08
  /\ _exitCode (handle_frame {| opcode := 0x08; payload := [x03; xe9] |}
                  started_abc123) = Some 0.
Proof.
  assert (E : opcode {| opcode := 0x08; payload := [x03; xe9] |} = 0x08)
    by reflexivity.
  split; [exact E|].
  exact (proj1 (exit_code_recorded example_host started_abc123) _ E).
Defined.

(** The [ws] variant on the close code 1001: the exit code is 1. *)
Lemma ws_close_code_1001_exits_1 :
  let s := new_process (lit "/home/user") 80 24 (Some (lit "abc123")) in
  _exitCode (WsVariant.on_close 1001 s) = Some 1
  /\ _exitCode (WsVariant.on_close 1001 s) <> Some 0
  /\ exit_codes (WsVariant.on_close 1001 s) = [1].
Proof. cbv zeta. repeat split; try reflexivity. discriminate. Qed.

(** The raw-socket variant on a close frame that carries the close code
    1001: the exit code is 0. *)
Example close_frame_1001_exits_0 :
  _exitCode (on_socket_data close_frame_1001 started_abc123) = Some 0.
Proof. reflexivity. Qed.

(** ** Start *)

Section Start.
Context `{Json}.

Lemma start_create_rejected (reply : HttpReply) (handshake : Handshake)
    (s : Process) (message : jsstring) :
  has_session s = false ->
  _createCmuxSession reply = Rejected message ->
  start reply handshake s = (s, start_failure message).
Proof. intros Hs Hr. unfold start. now rewrite Hs, Hr. Qed.

Lemma createCmuxSession_not_200 (statusCode : Z) (data : jsstring) :
  statusCode <> 200 ->
  _createCmuxSession (Response statusCode data)
  = Rejected (lit "HTTP " ++ decimal statusCode ++ lit ": " ++ data).
Proof.
  intro Hne. unfold _createCmuxSession.
  destruct (Z.eqb_spec statusCode 200); [contradiction | reflexivity].
Qed.

(** Any status other than 200: the failure names the status and carries
    the body, and the object is left as it was. *)
Lemma start_http_failure (statusCode : Z) (data : jsstring)
    (handshake : Handshake) (s : Process) :
  has_session s = false -> statusCode <> 200 ->
  start (Response statusCode data) handshake s
  = (s, LaunchError (lit "Failed to create cmux session: HTTP "
                       ++ decimal statusCode ++ lit ": " ++ data)).
Proof.
  intros Hs Hne.
  rewrite (start_create_rejected _ _ _ _ Hs (createCmuxSession_not_200 _ _ Hne)).
  reflexivity.
Qed.

End Start.

(** C6. When the session-create call answers with status 500 and the body
    [boom], [start()] returns a failure whose message contains the status
    500 and the body text, and fires nothing: no ready event is emitted for
    that start. *)
Theorem start_http_500_boom :
  forall (json : Json) (handshake : Handshake) (s : Process),
    has_session s = false ->
    exists message,
      start (Response 500 (lit "boom")) handshake s = (s, LaunchError message)
      /\ message = lit "Failed to create cmux session: HTTP 500: boom"
      /\ contains message (decimal 500)
      /\ contains message (lit "boom")
      /\ fired (fst (start (Response 500 (lit "boom")) handshake s)) = fired s
      /\ ready_events (fst (start (Response 500 (lit "boom")) handshake s))
         = ready_events s.
Proof.
  intros json handshake s Hs.
  exists (lit "Failed to create cmux session: HTTP 500: boom").
  assert (E : start (Response 500 (lit "boom")) handshake s
              = (s, LaunchError (lit "Failed to create cmux session: HTTP 500: boom"))).
  { rewrite start_http_failure by (exact Hs || discriminate). reflexivity. }
  rewrite E. cbn [fst]. repeat split.
  - exists (lit "Failed to create cmux session: HTTP "), (lit ": boom"). reflexivity.
  - exists (lit "Failed to create cmux session: HTTP 500: "), []. reflexivity.
Qed.

Lemma start_http_500_boom_witness :
  has_session (new_process (lit "/home/user") 80 24 None) = false
  /\ ready_events
       (fst (start (Response 500 (lit "boom")) Upgraded
               (new_process (lit "/home/user") 80 24 None))) = [].
Proof.
  assert (Hs : has_session (new_process (lit "/home/user") 80 24 None) = false)
    by reflexivity.
  split; [exact Hs|].
  destruct (start_http_500_boom example_json Upgraded _ Hs)
    as (message & _ & _ & _ & _ & _ & Hr).
  exact Hr.
Defined.


(** ** Input and resize *)

Section NotOpen.

(** The guard of [input] and [resize], case by case. *)
Lemma channel_open_false (s : Process) :
  channel_open s = false
  <-> isDisposed s = true
      \/ _socket s = None
      \/ exists sock, _socket s = Some sock /\ destroyed sock = true.
Proof.
  unfold channel_open.
  destruct (isDisposed s); cbn [negb andb]; [split; auto|].
  destruct (_socket s) as [[d w]|]; cbn [destroyed]; [|split; auto].
  destruct d; cbn [negb]; split; intro Hc.
  - right. right. eexists. split; reflexivity.
  - reflexivity.
  - discriminate.
  - destruct Hc as [Hc|[Hc|(sock & Hs & Hd)]]; try discriminate.
    injection Hs as <-. discriminate.
Qed.

Lemma not_open_new (cwd : jsstring) (cols rows : Z) (sid : option jsstring) :
  channel_open (new_process cwd cols rows sid) = false.
Proof. reflexivity. Qed.



End NotOpen.

(** C7. While the channel is not open (no socket yet, the socket destroyed
    or dropped, or the object disposed) [input] and [resize] return at once
    and leave the object as it was: nothing is written to a socket, nothing
    is stored for later, and no field changes. *)
Theorem input_resize_not_open :
  forall (host : Host) (s : Process),
    channel_open s = false ->
    (forall (data : jsstring) (mask : Buffer), input data mask s = s)
    /\ (forall (cols rows : Z) (mask : Buffer), resize cols rows mask s = s).
Proof.
  intros host s Hc. split; intros; unfold input, resize; now rewrite Hc.
Qed.

Lemma input_resize_not_open_witness :
  let s := new_process (lit "/home/user") 80 24 None in
  channel_open s = false
  /\ input (lit "ls") [x12; x34; x56; x78] s = s
  /\ resize 100 40 [x12; x34; x56; x78] s = s.
Proof.
  cbv zeta.
  assert (Hc : channel_open (new_process (lit "/home/user") 80 24 None) = false)
    by reflexivity.
  split; [exact Hc|].
  destruct (input_resize_not_open example_host _ Hc) as [Hi Hr].
  split; [apply Hi | apply Hr].
Defined.

(** ** Flow control *)

Section Flow.
Context `{Host}.

Lemma str_length_nonneg (text : jsstring) : 0 <= str_length text.
Proof. unfold str_length. lia. Qed.

Lemma rises_step (b b' : bool) (l : list bool) :
  rises (b :: b' :: l) = ((if negb b && b' then 1 else 0) + rises (b' :: l))%nat.
Proof. destruct b, b'; reflexivity. Qed.

Lemma falls_step (b b' : bool) (l : list bool) :
  falls (b :: b' :: l) = ((if b && negb b' then 1 else 0) + falls (b' :: l))%nat.
Proof. destruct b, b'; reflexivity. Qed.

Lemma pauses_nil {A : Type} (step : A -> Process -> Process) (s : Process) :
  pauses (trace step [] s) = 0%nat.
Proof. unfold pauses. cbn. destruct (_isPtyPaused s); reflexivity. Qed.

Lemma resumes_nil {A : Type} (step : A -> Process -> Process) (s : Process) :
  resumes (trace step [] s) = 0%nat.
Proof. unfold resumes. cbn. destruct (_isPtyPaused s); reflexivity. Qed.

Lemma pauses_step {A : Type} (step : A -> Process -> Process) (x : A)
    (xs : list A) (s : Process) :
  pauses (trace step (x :: xs) s)
  = ((if negb (_isPtyPaused s) && _isPtyPaused (step x s) then 1 else 0)
     + pauses (trace step xs (step x s)))%nat.
Proof.
  unfold pauses. cbn [trace map].
  destruct xs; cbn [trace map]; apply rises_step.
Qed.

Lemma resumes_step {A : Type} (step : A -> Process -> Process) (x : A)
    (xs : list A) (s : Process) :
  resumes (trace step (x :: xs) s)
  = ((if _isPtyPaused s && negb (_isPtyPaused (step x s)) then 1 else 0)
     + resumes (trace step xs (step x s)))%nat.
Proof.
  unfold resumes. cbn [trace map].
  destruct xs; cbn [trace map]; apply falls_step.
Qed.

(** What a frame does to the two flow-control fields. *)
Lemma handle_frame_count (f : Frame) (s : Process) :
  _unacknowledgedCharCount (handle_frame f s)
  = _unacknowledgedCharCount s
    + (if is_data_frame f then str_length (utf8_decode (payload f)) else 0).
Proof.
  unfold handle_frame, is_data_frame, count_inbound.
  destruct ((opcode f =? 1) || (opcode f =? 2)); cbn.
  - destruct (negb (_isPtyPaused s) && _); reflexivity.
  - destruct (opcode f =? 8); cbn; lia.
Qed.

Lemma handle_frame_paused (f : Frame) (s : Process) :
  _isPtyPaused (handle_frame f s)
  = _isPtyPaused s
    || (is_data_frame f
        && (_unacknowledgedCharCount (handle_frame f s) >? HighWatermarkChars)).
Proof.
  rewrite handle_frame_count.
  unfold handle_frame, is_data_frame, count_inbound.
  destruct ((opcode f =? 1) || (opcode f =? 2)); cbn.
  - destruct (_isPtyPaused s) eqn:Ep; cbn; [exact Ep|].
    destruct (_ >? HighWatermarkChars); cbn; [reflexivity | exact Ep].
  - destruct (opcode f =? 8); cbn; now rewrite orb_false_r.
Qed.

Lemma acknowledge_count (n : Z) (s : Process) :
  _unacknowledgedCharCount (acknowledgeDataEvent n s)
  = Z.max (_unacknowledgedCharCount s - n) 0.
Proof.
  unfold acknowledgeDataEvent. cbn.
  destruct (_isPtyPaused s && _); reflexivity.
Qed.

Lemma acknowledge_paused (n : Z) (s : Process) :
  _isPtyPaused (acknowledgeDataEvent n s)
  = _isPtyPaused s
    && negb (_unacknowledgedCharCount (acknowledgeDataEvent n s)
             <? LowWatermarkChars).
Proof.
  rewrite acknowledge_count. unfold acknowledgeDataEvent. cbn.
  destruct (_isPtyPaused s) eqn:Ep; cbn; [|exact Ep].
  destruct (_ <? LowWatermarkChars); cbn; [reflexivity | exact Ep].
Qed.

(** Once paused, inbound frames leave the flag alone. *)
Lemma frames_while_paused (frames : list Frame) :
  forall s, _isPtyPaused s = true ->
    pauses (trace handle_frame frames s) = 0%nat
    /\ _isPtyPaused (final handle_frame frames s) = true.
Proof.
  induction frames as [|f frames IH]; intros s Hp.
  - split; [apply pauses_nil | exact Hp].
  - assert (Hp' : _isPtyPaused (handle_frame f s) = true)
      by (rewrite handle_frame_paused, Hp; reflexivity).
    rewrite pauses_step, Hp. cbn [negb andb Nat.add final fold_left].
    exact (IH _ Hp').
Qed.

(** From below the high watermark, text that takes the count above it
    pauses once. *)
Lemma frames_cross_high (frames : list Frame) :
  forall s, _isPtyPaused s = false ->
    _unacknowledgedCharCount s <= HighWatermarkChars ->
    _unacknowledgedCharCount s + inbound_length frames > HighWatermarkChars ->
    pauses (trace handle_frame frames s) = 1%nat
    /\ _isPtyPaused (final handle_frame frames s) = true.
Proof.
  induction frames as [|f frames IH]; intros s Hp Hle Hgt.
  - cbn in Hgt. lia.
  - cbn [inbound_length fold_right] in Hgt. fold (inbound_length frames) in Hgt.
    rewrite pauses_step, Hp. cbn [negb andb final fold_left].
    pose proof (handle_frame_count f s) as Hc.
    pose proof (handle_frame_paused f s) as Hq. rewrite Hp in Hq. cbn [orb] in Hq.
    destruct (_isPtyPaused (handle_frame f s)) eqn:Hp'.
    + destruct (frames_while_paused frames _ Hp') as [-> Hfin].
      split; [reflexivity | exact Hfin].
    + symmetry in Hq. apply andb_false_iff in Hq.
      apply (IH (handle_frame f s) Hp').
      * destruct Hq as [Hq|Hq].
        -- rewrite Hq in Hc. lia.
        -- destruct (Z.gtb_spec (_unacknowledgedCharCount (handle_frame f s))
                       HighWatermarkChars); [discriminate | lia].
      * rewrite Hc. lia.
Qed.

(** Once resumed, acknowledgements leave the flag alone. *)
Lemma acks_while_running (acks : list Z) :
  forall s, _isPtyPaused s = false ->
    resumes (trace acknowledgeDataEvent acks s) = 0%nat
    /\ _isPtyPaused (final acknowledgeDataEvent acks s) = false.
Proof.
  induction acks as [|n acks IH]; intros s Hp.
  - split; [apply resumes_nil | exact Hp].
  - assert (Hp' : _isPtyPaused (acknowledgeDataEvent n s) = false)
      by (rewrite acknowledge_paused, Hp; reflexivity).
    rewrite resumes_step, Hp. cbn [negb andb Nat.add final fold_left].
    exact (IH _ Hp').
Qed.

(** While paused, acknowledgements that end below the low watermark
    resume once. *)
Lemma acks_cross_low (acks : list Z) :
  forall s, _isPtyPaused s = true -> acks <> [] ->
    _unacknowledgedCharCount (final acknowledgeDataEvent acks s)
      < LowWatermarkChars ->
    resumes (trace acknowledgeDataEvent acks s) = 1%nat
    /\ _isPtyPaused (final acknowledgeDataEvent acks s) = false.
Proof.
  induction acks as [|n acks IH]; intros s Hp Hne Hlow; [contradiction|].
  rewrite resumes_step, Hp. cbn [andb final fold_left] in *.
  pose proof (acknowledge_paused n s) as Hq. rewrite Hp in Hq. cbn [andb] in Hq.
  destruct (_isPtyPaused (acknowledgeDataEvent n s)) eqn:Hp'.
  - cbn [negb Nat.add].
    apply (IH _ Hp'); [|exact Hlow].
    intros ->. cbn [fold_left] in Hlow.
    symmetry in Hq. apply negb_true_iff in Hq.
    destruct (Z.ltb_spec (_unacknowledgedCharCount (acknowledgeDataEvent n s))
                LowWatermarkChars); [discriminate | lia].
  - cbn [negb].
    destruct (acks_while_running acks _ Hp') as [-> Hfin].
    split; [reflexivity | exact Hfin].
Qed.

Lemma frames_count_nonneg (frames : list Frame) :
  forall s, 0 <= _unacknowledgedCharCount s ->
    0 <= _unacknowledgedCharCount
           (fold_left (fun s frame => handle_frame frame s) frames s).
Proof.
  induction frames as [|f frames IH]; intros s Hs; cbn [fold_left]; [exact Hs|].
  apply IH. rewrite handle_frame_count.
  pose proof (str_length_nonneg (utf8_decode (payload f))).
  destruct (is_data_frame f); lia.
Qed.

(** No callback and no method takes the count below zero. *)
Lemma call_count_nonneg (c : Call) (s : Process) :
  0 <= _unacknowledgedCharCount s -> 0 <= _unacknowledgedCharCount (call c s).
Proof.
  intro Hs. destruct c; cbn [call].
  - unfold on_socket_data.
    destruct (_parseWebSocketFrames data); [now apply frames_count_nonneg | exact Hs].
  - exact Hs.
  - unfold input, socket_write.
    destruct (negb (channel_open s)); [exact Hs|].
    destruct (_socket s); exact Hs.
  - unfold resize, socket_write.
    destruct (negb (channel_open s)); [exact Hs|].
    cbn. destruct (_socket s); exact Hs.
  - rewrite acknowledge_count. lia.
  - cbn. lia.
  - unfold shutdown, dispose, _closeSocket.
    destruct (_socket s) eqn:E; cbn; [exact Hs|]. rewrite E. exact Hs.
Qed.

Lemma trace_invariant {A : Type} (step : A -> Process -> Process)
    (P : Process -> Prop) :
  (forall x s, P s -> P (step x s)) ->
  forall xs s, P s -> Forall P (trace step xs s).
Proof.
  intros Hstep xs. induction xs as [|x xs IH]; intros s Hs; cbn [trace].
  - constructor; [exact Hs | constructor].
  - constructor; [exact Hs|]. apply IH, Hstep, Hs.
Qed.

End Flow.

(** C3. With a high watermark that is not negative: from a count of 0 and
    not paused, inbound text whose cumulative length exceeds
    [HighWatermarkChars] sets [_isPtyPaused] to true exactly once;
    acknowledgements from a paused state that bring the count below
    [LowWatermarkChars] set it to false exactly once; an acknowledgement
    clamps the count at zero, and along every run of callbacks and method
    calls the count is never negative. *)
Theorem flow_control_hysteresis :
  forall host : Host,
    0 <= HighWatermarkChars ->
    (forall (s : Process) (frames : list Frame),
        _unacknowledgedCharCount s = 0 -> _isPtyPaused s = false ->
        inbound_length frames > HighWatermarkChars ->
        pauses (trace handle_frame frames s) = 1%nat
        /\ _isPtyPaused (final handle_frame frames s) = true)
    /\ (forall (s : Process) (acks : list Z),
           _isPtyPaused s = true -> acks <> [] ->
           _unacknowledgedCharCount (final acknowledgeDataEvent acks s)
             < LowWatermarkChars ->
           resumes (trace acknowledgeDataEvent acks s) = 1%nat
           /\ _isPtyPaused (final acknowledgeDataEvent acks s) = false)
    /\ (forall (s : Process) (charCount : Z),
           _unacknowledgedCharCount (acknowledgeDataEvent charCount s)
           = Z.max (_unacknowledgedCharCount s - charCount) 0)
    /\ (forall (s : Process) (calls : list Call),
           0 <= _unacknowledgedCharCount s ->
           Forall (fun st => 0 <= _unacknowledgedCharCount st) (trace call calls s)).
Proof.
  intros host Hhigh. split; [|split; [|split]].
  - intros s frames Hc Hp Hgt.
    apply frames_cross_high; [exact Hp | lia | lia].
  - intros s acks. apply acks_cross_low.
  - intros s n. apply acknowledge_count.
  - intros s calls Hs.
    apply (trace_invariant call (fun st => 0 <= _unacknowledgedCharCount st));
      [|exact Hs].
    intros c st. apply call_count_nonneg.
Qed.

Lemma flow_control_hysteresis_witness :
  let frames := [text_40000; text_40000; text_40000] in
  let paused := final handle_frame frames started_abc123 in
  0 <= HighWatermarkChars
  /\ (_unacknowledgedCharCount started_abc123 = 0
      /\ _isPtyPaused started_abc123 = false
      /\ inbound_length frames > HighWatermarkChars)
  /\ pauses (trace handle_frame frames started_abc123) = 1%nat
  /\ (_isPtyPaused paused = true
      /\ [60000; 60000] <> []
      /\ _unacknowledgedCharCount (final acknowledgeDataEvent [60000; 60000] paused)
         < LowWatermarkChars)
  /\ resumes (trace acknowledgeDataEvent [60000; 60000] paused) = 1%nat.
Proof.
  cbv zeta.
  assert (Hh : 0 <= HighWatermarkChars) by (vm_compute; discriminate).
  assert (H1 : _unacknowledgedCharCount started_abc123 = 0) by reflexivity.
  assert (H2 : _isPtyPaused started_abc123 = false) by reflexivity.
  assert (H3 : inbound_length [text_40000; text_40000; text_40000]
               > HighWatermarkChars) by (vm_compute; reflexivity).
  destruct (flow_control_hysteresis example_host Hh) as (Hpause & Hresume & _ & _).
  destruct (Hpause started_abc123 _ H1 H2 H3) as [Hp Hfin].
  assert (H4 : [60000; 60000] <> ([] : list Z)) by discriminate.
  assert (H5 : _unacknowledgedCharCount
                 (final acknowledgeDataEvent [60000; 60000]
                    (final handle_frame [text_40000; text_40000; text_40000]
                       started_abc123))
               < LowWatermarkChars) by (vm_compute; reflexivity).
  destruct (Hresume _ _ Hfin H4 H5) as [Hr _].
  repeat split; assumption.
Defined.

(* ================================================================== *)
(** * Further properties *)

(** ** Decoding across chunk boundaries *)

Section Shift.

Lemma byte_at_shift (pre data : Buffer) (i : Z) :
  0 <= i -> Wire.byte_at (pre ++ data) (len pre + i) = Wire.byte_at data i.
Proof.
  intro Hi. unfold Wire.byte_at, len. f_equal.
  replace (Z.to_nat (Z.of_nat (length pre) + i))
    with (length pre + Z.to_nat i)%nat by lia.
  apply app_nth2_plus.
Qed.

Lemma slice_shift (pre data : Buffer) (a b : Z) :
  0 <= a ->
  Wire.slice (pre ++ data) (len pre + a) (len pre + b) = Wire.slice data a b.
Proof.
  intro Ha. unfold Wire.slice, len.
  replace (Z.of_nat (length pre) + b - (Z.of_nat (length pre) + a)) with (b - a)
    by lia.
  f_equal.
  replace (Z.to_nat (Z.of_nat (length pre) + a))
    with (length pre + Z.to_nat a)%nat by lia.
  rewrite skipn_app.
  rewrite skipn_all2 by lia.
  replace (length pre + Z.to_nat a - length pre)%nat with (Z.to_nat a) by lia.
  reflexivity.
Qed.

Lemma wire_shift (pre data : Buffer) (offset : Z) :
  0 <= offset ->
  Wire.ext_size (pre ++ data) (len pre + offset) = Wire.ext_size data offset
  /\ Wire.key_size (pre ++ data) (len pre + offset) = Wire.key_size data offset
  /\ Wire.frame_size (pre ++ data) (len pre + offset) = Wire.frame_size data offset
  /\ Wire.frame_at (pre ++ data) (len pre + offset) = Wire.frame_at data offset.
Proof.
  intro Hoff.
  pose proof (ext_size_range data offset) as He.
  pose proof (key_size_range data offset) as Hk.
  assert (Hb1 : Wire.byte_at (pre ++ data) (len pre + offset)
                = Wire.byte_at data offset) by (apply byte_at_shift; lia).
  assert (Hb2 : Wire.byte_at (pre ++ data) (len pre + offset + 1)
                = Wire.byte_at data (offset + 1)).
  { rewrite <- Z.add_assoc. apply byte_at_shift. lia. }
  assert (Hext : Wire.ext_size (pre ++ data) (len pre + offset)
                 = Wire.ext_size data offset)
    by (unfold Wire.ext_size; now rewrite Hb2).
  assert (Hm : Wire.is_masked (pre ++ data) (len pre + offset)
               = Wire.is_masked data offset)
    by (unfold Wire.is_masked; now rewrite Hb2).
  assert (Hkey : Wire.key_size (pre ++ data) (len pre + offset)
                 = Wire.key_size data offset)
    by (unfold Wire.key_size; now rewrite Hm).
  assert (Hdecl : Wire.declared_length (pre ++ data) (len pre + offset)
                  = Wire.declared_length data offset).
  { unfold Wire.declared_length. rewrite Hb2, Hext.
    rewrite <- !(Z.add_assoc (len pre)). rewrite slice_shift by lia.
    reflexivity. }
  repeat split.
  - exact Hext.
  - exact Hkey.
  - unfold Wire.frame_size. now rewrite Hext, Hkey, Hdecl.
  - unfold Wire.frame_at. rewrite Hb1, Hm, Hext, Hkey, Hdecl.
    rewrite <- !(Z.add_assoc (len pre)).
    rewrite !slice_shift by lia. reflexivity.
Qed.

Lemma insufficient_shift (pre data : Buffer) (offset : Z) :
  0 <= offset ->
  Wire.insufficient (pre ++ data) (len pre + offset)
  <-> Wire.insufficient data offset.
Proof.
  intro Hoff.
  destruct (wire_shift pre data offset Hoff) as (He & Hk & Hs & _).
  unfold Wire.insufficient. rewrite He, Hk, Hs, len_app.
  replace (len pre + len data - (len pre + offset)) with (len data - offset) by lia.
  reflexivity.
Qed.

(** The loop body sees a frame the same way wherever it lies in the
    buffer: bytes put in front only move the offsets. *)
Lemma parse_frame_shift (pre data : Buffer) (offset : Z) :
  0 <= offset ->
  parse_frame (pre ++ data) (len pre + offset)
  = shift_step (len pre) (parse_frame data offset).
Proof.
  intro Hoff.
  pose proof (len_nonneg pre) as Hp.
  destruct (wire_shift pre data offset Hoff) as (_ & _ & Hs & Hf).
  pose proof (insufficient_shift pre data offset Hoff) as Hi.
  destruct (parse_frame_spec data offset Hoff) as [[Hins E]|[Hn E]];
    rewrite E; cbn [shift_step].
  - apply parse_frame_insufficient; [lia | now apply Hi].
  - destruct (parse_frame_spec (pre ++ data) (len pre + offset) ltac:(lia))
      as [[Hins' _]|[_ E']]; [now apply Hi in Hins'|].
    rewrite E', Hs, Hf. f_equal. f_equal. lia.
Qed.

Lemma parse_loop_shift (pre : Buffer) (fuel : nat) :
  forall (data : Buffer) (offset : Z) (acc : list Frame),
    0 <= offset ->
    parse_loop fuel (pre ++ data) (len pre + offset) acc
    = shift_outcome (len pre) (parse_loop fuel data offset acc).
Proof.
  induction fuel as [|fuel IH]; intros data offset acc Hoff; [reflexivity|].
  rewrite !parse_loop_S, len_app, parse_frame_shift by exact Hoff.
  destruct (Z.ltb_spec offset (len data)) as [Hlt|Hge];
    destruct (Z.ltb_spec (len pre + offset) (len pre + len data)); try lia;
    [|reflexivity].
  destruct (parse_frame data offset) as [[f o']| |] eqn:E; cbn [shift_step];
    [|reflexivity|reflexivity].
  apply IH. pose proof (parse_frame_progress _ _ _ _ Hoff E). lia.
Qed.

(** More fuel does not change what a run returns. *)
Lemma parse_loop_more_fuel (n : nat) :
  forall (m : nat) (data : Buffer) (offset : Z) (acc frames : list Frame) (o : Z),
    parse_loop n data offset acc = Returned frames o ->
    (n <= m)%nat ->
    parse_loop m data offset acc = Returned frames o.
Proof.
  induction n as [|n IH]; intros m data offset acc frames o E Hle;
    [discriminate|].
  destruct m as [|m]; [lia|].
  rewrite parse_loop_S in *.
  destruct (offset <? len data); [|exact E].
  destruct (parse_frame data offset) as [[f o']| |]; [|exact E|discriminate].
  apply (IH m); [exact E | lia].
Qed.

(** The frames already collected are carried along untouched. *)
Lemma parse_loop_acc (fuel : nat) :
  forall (data : Buffer) (offset : Z) (acc frames : list Frame) (o : Z),
    parse_loop fuel data offset [] = Returned frames o ->
    parse_loop fuel data offset acc = Returned (acc ++ frames) o.
Proof.
  assert (G : forall fuel data offset pre acc frames o,
             parse_loop fuel data offset acc = Returned frames o ->
             parse_loop fuel data offset (pre ++ acc) = Returned (pre ++ frames) o).
  { clear fuel. induction fuel as [|fuel IH]; intros data offset pre acc frames o E;
      [discriminate|].
    rewrite parse_loop_S in *.
    destruct (offset <? len data).
    - destruct (parse_frame data offset) as [[f o']| |]; try discriminate.
      + rewrite <- app_assoc. now apply IH.
      + injection E as <- <-. reflexivity.
    - injection E as <- <-. reflexivity. }
  intros data offset acc frames o E.
  specialize (G fuel data offset acc [] frames o E).
  now rewrite app_nil_r in G.
Qed.

(** A run over [a] that ends at the end of [a] is the first part of the run
    over [a ++ b]. *)
Lemma parse_loop_prefix (a b : Buffer) (n : nat) :
  forall (m : nat) (offset : Z) (acc frames : list Frame) (R : Outcome),
    0 <= offset ->
    parse_loop n a offset acc = Returned frames (len a) ->
    (forall j, (S m <= j)%nat -> parse_loop j (a ++ b) (len a) frames = R) ->
    parse_loop (n + m) (a ++ b) offset acc = R.
Proof.
  induction n as [|n IH]; intros m offset acc frames R Hoff E HR;
    [discriminate|].
  rewrite parse_loop_S in E.
  destruct (Z.ltb_spec offset (len a)) as [Hlt|Hge].
  - destruct (parse_frame a offset) as [[f o']| |] eqn:Ef; try discriminate.
    + cbn [Nat.add]. rewrite parse_loop_S, len_app.
      pose proof (len_nonneg b).
      destruct (Z.ltb_spec offset (len a + len b)); [|lia].
      rewrite (parse_frame_extend a b offset _ Hoff Ef).
      apply (IH m o' _ frames); [|exact E|exact HR].
      pose proof (parse_frame_progress _ _ _ _ Hoff Ef). lia.
    + injection E as _ E. lia.
  - injection E as <- ->. apply HR. lia.
Qed.

Lemma parse_run_app_returned (a b : Buffer) (fa fb : list Frame) (ob : Z) :
  parse_run a = Returned fa (len a) ->
  parse_run b = Returned fb ob ->
  parse_run (a ++ b) = Returned (fa ++ fb) (len a + ob).
Proof.
  intros Ea Eb. unfold parse_run in *.
  rewrite length_app.
  change (S (length a + length b)) with (S (length a) + length b)%nat.
  apply (parse_loop_prefix a b _ _ 0 [] fa); [lia | exact Ea |].
  intros j Hj.
  replace (len a) with (len a + 0) at 1 by lia.
  rewrite parse_loop_shift by lia.
  rewrite (parse_loop_more_fuel _ j _ _ _ _ _
             (parse_loop_acc _ _ _ fa _ _ Eb) Hj).
  reflexivity.
Qed.

End Shift.

(** X1. Decoding composes over concatenation: when the run over [a] uses up
    [a] to its last byte, the frames of [a ++ b] are the frames of [a]
    followed by the frames of [b], and the final offset is the one of [b]
    moved by the length of [a]. *)
Theorem parse_run_app :
  forall (a b : Buffer) (fa fb : list Frame) (ob : Z),
    parse_run a = Returned fa (len a) ->
    parse_run b = Returned fb ob ->
    parse_run (a ++ b) = Returned (fa ++ fb) (len a + ob)
    /\ _parseWebSocketFrames (a ++ b) = Some (fa ++ fb).
Proof.
  intros a b fa fb ob Ea Eb.
  pose proof (parse_run_app_returned a b fa fb ob Ea Eb) as E.
  split; [exact E|]. unfold _parseWebSocketFrames. now rewrite E.
Qed.

Lemma parse_run_app_witness :
  parse_run text_a_chunk
  = Returned [{| opcode := 1; payload := [x61] |}] (len text_a_chunk)
  /\ parse_run close_and_stray_chunk
     = Returned [{| opcode := 8; payload := [] |}] 2
  /\ _parseWebSocketFrames (text_a_chunk ++ close_and_stray_chunk)
     = Some ([{| opcode := 1; payload := [x61] |}]
               ++ [{| opcode := 8; payload := [] |}]).
Proof.
  assert (Ha : parse_run text_a_chunk
               = Returned [{| opcode := 1; payload := [x61] |}]
                   (len text_a_chunk)) by reflexivity.
  assert (Hb : parse_run close_and_stray_chunk
               = Returned [{| opcode := 8; payload := [] |}] 2) by reflexivity.
  split; [exact Ha|]. split; [exact Hb|].
  exact (proj2 (parse_run_app _ _ _ _ _ Ha Hb)).
Defined.

(** X2. The data callback composes the same way: a chunk [a ++ b] whose
    first part [a] is made of complete frames has the effect of the callback
    on [a] followed by the callback on [b]. *)
Theorem on_socket_data_app :
  forall (host : Host) (a b : Buffer) (fa : list Frame) (s : Process),
    parse_run a = Returned fa (len a) ->
    on_socket_data (a ++ b) s = on_socket_data b (on_socket_data a s).
Proof.
  intros host a b fa s Ea.
  destruct (parse_run_returns b) as (fb & ob & Eb & _).
  pose proof (parse_run_app_returned a b fa fb ob Ea Eb) as E.
  unfold on_socket_data, _parseWebSocketFrames. rewrite E, Ea, Eb.
  apply fold_left_app.
Qed.

Lemma on_socket_data_app_witness :
  parse_run [x81; x01; x61]
  = Returned [{| opcode := 1; payload := [x61] |}] (len [x81; x01; x61])
  /\ on_socket_data ([x81; x01; x61] ++ [x88; x00]) started_abc123
     = on_socket_data [x88; x00] (on_socket_data [x81; x01; x61] started_abc123).
Proof.
  assert (Ha : parse_run [x81; x01; x61]
               = Returned [{| opcode := 1; payload := [x61] |}]
                   (len [x81; x01; x61])) by reflexivity.
  split; [exact Ha|].
  exact (on_socket_data_app example_host _ [x88; x00] _ started_abc123 Ha).
Defined.

Lemma split_frame_insufficient (c1 c2 : Buffer) (frame : Frame) :
  one_complete_frame (c1 ++ c2) frame -> c2 <> [] -> Wire.insufficient c1 0.
Proof.
  intros Hone Hc2.
  apply one_complete_frame_wire in Hone as (Hn & Hs & _).
  destruct (parse_frame_spec c1 0 (Z.le_refl 0)) as [[Hi _]|[Hn1 _]]; [exact Hi|].
  exfalso.
  destruct (wire_extend c1 c2 0 (Z.le_refl 0) Hn1) as (_ & _ & Hs').
  rewrite Hs' in Hs. rewrite len_app in Hs.
  assert (0 < len c2) by (destruct c2; [contradiction | rewrite len_cons; pose proof (len_nonneg c2); lia]).
  pose proof (ext_size_range c1 0). pose proof (key_size_range c1 0).
  pose proof (declared_length_nonneg c1 0).
  unfold Wire.insufficient in Hn1. lia.
Qed.

(** X3. A frame that arrives split over two chunks is not put together
    again: the chunk holding only the first part of a complete frame decodes
    to no frame, and the data callback leaves the object as it was. *)
Theorem split_frame_dropped :
  forall (host : Host) (c1 c2 : Buffer) (frame : Frame) (s : Process),
    one_complete_frame (c1 ++ c2) frame ->
    c2 <> [] ->
    parse_run c1 = Returned [] 0
    /\ on_socket_data c1 s = s.
Proof.
  intros host c1 c2 frame s Hone Hc2.
  assert (E : parse_run c1 = Returned [] 0).
  { unfold parse_run. rewrite parse_loop_S.
    destruct (Z.ltb_spec 0 (len c1)); [|reflexivity].
    rewrite parse_frame_insufficient; [reflexivity | lia |].
    exact (split_frame_insufficient c1 c2 frame Hone Hc2). }
  split; [exact E|].
  unfold on_socket_data, _parseWebSocketFrames. now rewrite E.
Qed.

Lemma split_frame_dropped_witness :
  one_complete_frame ([x81; x03; x61; x62] ++ [x63])
    {| opcode := 1; payload := [x61; x62; x63] |}
  /\ [x63] <> ([] : Buffer)
  /\ on_socket_data [x81; x03; x61; x62] started_abc123 = started_abc123.
Proof.
  assert (H1 : one_complete_frame ([x81; x03; x61; x62] ++ [x63])
                 {| opcode := 1; payload := [x61; x62; x63] |}) by reflexivity.
  assert (H2 : [x63] <> ([] : Buffer)) by discriminate.
  split; [exact H1|]. split; [exact H2|].
  exact (proj2 (split_frame_dropped example_host _ _ _ started_abc123 H1 H2)).
Defined.

(** X4. The decoder against the wire format: two header bytes, the extended
    length the length field calls for (2 bytes after 126, 8 after 127, read
    big-endian), a 4-byte key when the mask bit is set, and a body of the
    declared length decode to one frame; its opcode is the low four bits of
    the first byte (the FIN and reserved bits are not looked at) and its
    payload is the body, unmasked with the key when there is one. *)
Theorem decode_wire_layout :
  forall (b1 b2 : byte) (ext key body : Buffer),
    let l7 := Z.land (b2z b2) 0x7F in
    let masked := negb (Z.land (b2z b2) 0x80 =? 0) in
    len ext = (if l7 =? 126 then 2 else if l7 =? 127 then 8 else 0) ->
    len key = (if masked then 4 else 0) ->
    len body = (if (l7 =? 126) || (l7 =? 127) then be_value ext else l7) ->
    _parseWebSocketFrames (b1 :: b2 :: ext ++ key ++ body)
    = Some [{| opcode := Z.land (b2z b1) 0x0F;
               payload := if masked then xor_mask body key else body |}].
Proof.
  intros b1 b2 ext key body l7 masked He Hk Hb.
  apply parse_run_one_frame.
  exact (layout_complete b1 b2 ext key body He Hk Hb).
Qed.

Lemma decode_wire_layout_witness :
  len [x00; x03] = 2 /\ len ([] : Buffer) = 0 /\ len [x68; x69; x21] = 3
  /\ _parseWebSocketFrames (x01 :: x7e :: [x00; x03] ++ [] ++ [x68; x69; x21])
     = Some [{| opcode := 1; payload := [x68; x69; x21] |}].
Proof.
  assert (H1 : len [x00; x03] = 2) by reflexivity.
  assert (H2 : len ([] : Buffer) = 0) by reflexivity.
  assert (H3 : len [x68; x69; x21] = 3) by reflexivity.
  split; [exact H1|]. split; [exact H2|]. split; [exact H3|].
  exact (decode_wire_layout x01 x7e [x00; x03] [] [x68; x69; x21] H1 H2 H3).
Defined.

Section Bounds.

Lemma slice_len (data : Buffer) (a b : Z) :
  0 <= a <= b -> b <= len data -> len (Wire.slice data a b) = b - a.
Proof.
  intros Hab Hb. unfold Wire.slice, len in *.
  rewrite length_firstn, length_skipn. lia.
Qed.

(** A frame the loop body pushes lies between the old and the new offset
    with its two header bytes and its payload. *)
Lemma parse_frame_payload (data : Buffer) (offset offset' : Z) (f : Frame) :
  0 <= offset -> parse_frame data offset = Continue (f, offset') ->
  offset + 2 + len (payload f) <= offset'.
Proof.
  intros Hoff E.
  apply parse_frame_continue in E as [Hn E]; [|exact Hoff].
  injection E as -> ->.
  pose proof (ext_size_range data offset) as He.
  pose proof (key_size_range data offset) as Hk.
  pose proof (declared_length_nonneg data offset) as Hd.
  unfold Wire.insufficient in Hn. unfold Wire.frame_size in *.
  assert (Hp : len (payload (Wire.frame_at data offset))
               = Wire.declared_length data offset).
  { unfold Wire.frame_at. cbn [payload].
    destruct (Wire.is_masked data offset).
    - unfold len at 1. rewrite xor_mask_length. fold (len (Wire.slice data
        (offset + 2 + Wire.ext_size data offset + Wire.key_size data offset)
        (offset + 2 + Wire.ext_size data offset + Wire.key_size data offset
         + Wire.declared_length data offset))).
      rewrite slice_len; lia.
    - rewrite slice_len; lia. }
  rewrite Hp. lia.
Qed.

Lemma wire_bytes_snoc (frames : list Frame) (f : Frame) :
  wire_bytes (frames ++ [f]) = wire_bytes frames + 2 + len (payload f).
Proof.
  induction frames as [|g frames IH]; cbn [app wire_bytes fold_right].
  - lia.
  - fold (wire_bytes (frames ++ [f])). fold (wire_bytes frames). lia.
Qed.

Lemma wire_bytes_count (frames : list Frame) :
  2 * Z.of_nat (length frames) <= wire_bytes frames.
Proof.
  induction frames as [|g frames IH]; cbn [wire_bytes fold_right length].
  - lia.
  - fold (wire_bytes frames). pose proof (len_nonneg (payload g)). lia.
Qed.

Lemma parse_loop_wire_bytes (fuel : nat) :
  forall (data : Buffer) (offset : Z) (acc frames : list Frame) (o : Z),
    0 <= offset -> wire_bytes acc <= offset ->
    parse_loop fuel data offset acc = Returned frames o ->
    wire_bytes frames <= o.
Proof.
  induction fuel as [|fuel IH]; intros data offset acc frames o Hoff Hacc E;
    [discriminate|].
  rewrite parse_loop_S in E.
  destruct (offset <? len data).
  - destruct (parse_frame data offset) as [[f o']| |] eqn:Ef; try discriminate.
    + pose proof (parse_frame_payload _ _ _ _ Hoff Ef).
      pose proof (len_nonneg (payload f)).
      apply (IH data o' (acc ++ [f]) frames o); [lia | | exact E].
      rewrite wire_bytes_snoc. lia.
    + injection E as <- <-. exact Hacc.
  - injection E as <- <-. exact Hacc.
Qed.

Lemma set_length (buf : Buffer) (i : nat) (v : Z) :
  length (set buf i v) = length buf.
Proof.
  revert i. induction buf as [|b buf IH]; intros [|i]; cbn [set length];
    try reflexivity. now rewrite IH.
Qed.

Lemma copy_length (src target : Buffer) (k : nat) :
  length (copy src target k) = length target.
Proof.
  revert src k. induction target as [|t target IH]; intros src k;
    [destruct k; reflexivity|].
  destruct k as [|k]; cbn [copy].
  - destruct src as [|s src]; [reflexivity|]. cbn [length]. now rewrite IH.
  - cbn [length]. now rewrite IH.
Qed.

End Bounds.

(** X5. The decoder gives out no more than it takes in: the payloads of the
    frames returned, with two header bytes for each, fit below the final
    offset, which is inside the buffer; so a buffer of [n] bytes yields at
    most [n / 2] frames. *)
Theorem parse_output_bounded :
  forall (data : Buffer) (frames : list Frame) (offset : Z),
    parse_run data = Returned frames offset ->
    wire_bytes frames <= offset <= len data
    /\ 2 * Z.of_nat (length frames) <= len data.
Proof.
  intros data frames offset E.
  assert (H1 : wire_bytes frames <= offset)
    by (apply (parse_loop_wire_bytes _ _ 0 [] _ _ (Z.le_refl 0) (Z.le_refl 0) E)).
  destruct (parse_run_returns data) as (fs & o & E' & Ho).
  rewrite E in E'. injection E' as <- <-.
  pose proof (wire_bytes_count frames). lia.
Qed.

Lemma parse_output_bounded_witness :
  parse_run frame_and_fragment
  = Returned [{| opcode := 0x01; payload := [x61] |}] 3
  /\ wire_bytes [{| opcode := 0x01; payload := [x61] |}] <= 3 <= len frame_and_fragment.
Proof.
  assert (E : parse_run frame_and_fragment
              = Returned [{| opcode := 0x01; payload := [x61] |}] 3) by reflexivity.
  split; [exact E|].
  exact (proj1 (parse_output_bounded _ _ _ E)).
Defined.

(** X6. The length of an encoded frame is the header ([header_length]: 6, 8
    or 14 bytes) plus the payload, whatever the mask bytes are; its first
    byte is 0x81 for a string and 0x82 for a buffer (FIN set, no reserved
    bit), and no frame is shorter than 6 bytes. *)
Theorem createWebSocketFrame_length :
  forall (host : Host) (data : FrameData) (mask : Buffer),
    let frame := _createWebSocketFrame data mask in
    len frame = Z.of_nat (header_length (len (frame_payload data)))
                + len (frame_payload data)
    /\ nth_error frame 0
       = Some (match data with Text _ => x81 | Binary _ => x82 end)
    /\ (6 <= len frame).
Proof.
  intros host data mask frame.
  set (p := frame_payload data).
  pose proof (len_nonneg p) as Hp.
  assert (H1 : len frame = Z.of_nat (header_length (len p)) + len p).
  { assert (Hx : len (xor_mask p mask) = len p)
      by (unfold len; now rewrite xor_mask_length).
    subst frame. unfold _createWebSocketFrame, header_length. fold p.
    destruct (len p <? 126); [|destruct (len p <? 65536)];
      rewrite len_app, Hx; unfold len at 1;
      unfold writeUInt16BE, writeBigUInt64BE;
      rewrite !copy_length, !set_length; reflexivity. }
  split; [exact H1|]. split.
  - subst frame. unfold _createWebSocketFrame. fold p.
    destruct (len p <? 126); [|destruct (len p <? 65536)];
      destruct data; reflexivity.
  - rewrite H1. unfold header_length.
    destruct (len p <? 126); [|destruct (len p <? 65536)]; lia.
Qed.

Section Sending.
Context `{Host}.

Lemma input_open (data : jsstring) (mask : Buffer) (s : Process) :
  channel_open s = true ->
  input data mask s = socket_write (_createWebSocketFrame (Text data) mask) s.
Proof. intro Hc. unfold input. now rewrite Hc. Qed.

Lemma channel_open_true (s : Process) :
  channel_open s = true ->
  isDisposed s = false
  /\ exists w, _socket s = Some {| destroyed := false; written := w |}.
Proof.
  unfold channel_open.
  destruct (isDisposed s); [discriminate|].
  destruct (_socket s) as [[d w]|]; [|discriminate].
  destruct d; [discriminate|]. intros _. split; [reflexivity|]. now exists w.
Qed.

End Sending.

(** X7. On an open channel [input] writes exactly one buffer to the socket
    and changes nothing else; that buffer decodes to one text frame (opcode
    0x01) carrying the UTF-8 bytes of the data.  [processBinary] does the
    same: its data goes out as a text frame too. *)
Theorem input_open_writes_text_frame :
  forall (host : Host) (data : jsstring) (mask : Buffer) (s : Process),
    channel_open s = true ->
    length mask = 4%nat ->
    len (utf8_encode data) < 2 ^ 64 ->
    exists (w : list Buffer) (frame : Buffer),
      _socket s = Some {| destroyed := false; written := w |}
      /\ input data mask s
         = Upd.socket (Some {| destroyed := false; written := w ++ [frame] |}) s
      /\ _parseWebSocketFrames frame
         = Some [{| opcode := 0x01; payload := utf8_encode data |}]
      /\ processBinary data mask s = input data mask s.
Proof.
  intros host data mask s Hc Hm Hlen.
  destruct (channel_open_true s Hc) as (_ & w & Hs).
  exists w, (_createWebSocketFrame (Text data) mask).
  split; [exact Hs|]. split; [|split].
  - rewrite input_open by exact Hc. unfold socket_write. now rewrite Hs.
  - exact (createWebSocketFrame_roundtrip_any (Text data) mask Hm Hlen).
  - reflexivity.
Qed.

Lemma input_open_writes_text_frame_witness :
  channel_open started_abc123 = true
  /\ length [x12; x34; x56; x78] = 4%nat
  /\ len (utf8_encode (lit "ls")) < 2 ^ 64
  /\ exists w frame,
       _socket started_abc123 = Some {| destroyed := false; written := w |}
       /\ input (lit "ls") [x12; x34; x56; x78] started_abc123
          = Upd.socket (Some {| destroyed := false; written := w ++ [frame] |})
              started_abc123.
Proof.
  assert (H1 : channel_open started_abc123 = true) by reflexivity.
  assert (H2 : length [x12; x34; x56; x78] = 4%nat) by reflexivity.
  assert (H3 : len (utf8_encode (lit "ls")) < 2 ^ 64) by reflexivity.
  split; [exact H1|]. split; [exact H2|]. split; [exact H3|].
  destruct (input_open_writes_text_frame example_host (lit "ls")
              [x12; x34; x56; x78] started_abc123 H1 H2 H3)
    as (w & frame & Hs & Hi & _).
  exists w, frame. split; [exact Hs | exact Hi].
Defined.

(** X8. On an open channel [resize] stores the new size and writes exactly
    one buffer to the socket, which decodes to one text frame carrying the
    JSON resize message. *)
Theorem resize_open_writes_control_frame :
  forall (host : Host) (cols rows : Z) (mask : Buffer) (s : Process),
    channel_open s = true ->
    length mask = 4%nat ->
    len (utf8_encode (resize_message cols rows)) < 2 ^ 64 ->
    exists (w : list Buffer) (frame : Buffer),
      _socket s = Some {| destroyed := false; written := w |}
      /\ resize cols rows mask s
         = Upd.socket (Some {| destroyed := false; written := w ++ [frame] |})
             (Upd.dims cols rows s)
      /\ _parseWebSocketFrames frame
         = Some [{| opcode := 0x01;
                    payload := utf8_encode (resize_message cols rows) |}]
      /\ _cols (resize cols rows mask s) = cols
      /\ _rows (resize cols rows mask s) = rows.
Proof.
  intros host cols rows mask s Hc Hm Hlen.
  destruct (channel_open_true s Hc) as (_ & w & Hs).
  exists w, (_createWebSocketFrame (Text (resize_message cols rows)) mask).
  assert (E : resize cols rows mask s
              = Upd.socket
                  (Some {| destroyed := false;
                           written := w ++ [_createWebSocketFrame
                                              (Text (resize_message cols rows)) mask] |})
                  (Upd.dims cols rows s)).
  { unfold resize. rewrite Hc. cbn [negb]. unfold socket_write.
    cbn [_socket Upd.dims]. now rewrite Hs. }
  split; [exact Hs|]. split; [exact E|]. split; [|split].
  - exact (createWebSocketFrame_roundtrip_any (Text (resize_message cols rows)) mask Hm Hlen).
  - now rewrite E.
  - now rewrite E.
Qed.

Lemma resize_open_writes_control_frame_witness :
  channel_open started_abc123 = true
  /\ length [x12; x34; x56; x78] = 4%nat
  /\ len (utf8_encode (resize_message 100 40)) < 2 ^ 64
  /\ _cols (resize 100 40 [x12; x34; x56; x78] started_abc123) = 100
  /\ _rows (resize 100 40 [x12; x34; x56; x78] started_abc123) = 40.
Proof.
  assert (H1 : channel_open started_abc123 = true) by reflexivity.
  assert (H2 : length [x12; x34; x56; x78] = 4%nat) by reflexivity.
  assert (H3 : len (utf8_encode (resize_message 100 40)) < 2 ^ 64) by reflexivity.
  split; [exact H1|]. split; [exact H2|]. split; [exact H3|].
  destruct (resize_open_writes_control_frame example_host 100 40
              [x12; x34; x56; x78] started_abc123 H1 H2 H3)
    as (w & frame & _ & _ & _ & Hc & Hr).
  split; [exact Hc | exact Hr].
Defined.

Section Callbacks.
Context `{Host}.

(** A frame touches the count, the pause flag, the exit code and the list
    of fired events, and nothing else. *)
Lemma handle_frame_fired (f : Frame) (s : Process) :
  fired (handle_frame f s) = fired s ++ frame_events f.
Proof.
  unfold handle_frame, frame_events, is_data_frame, count_inbound.
  destruct ((opcode f =? 1) || (opcode f =? 2)); cbn.
  - destruct (negb (_isPtyPaused s) && _); reflexivity.
  - destruct (opcode f =? 8); cbn; [reflexivity | now rewrite app_nil_r].
Qed.

Lemma handle_frame_socket (f : Frame) (s : Process) :
  _socket (handle_frame f s) = _socket s
  /\ isDisposed (handle_frame f s) = isDisposed s
  /\ _cmuxSessionId (handle_frame f s) = _cmuxSessionId s.
Proof.
  unfold handle_frame, count_inbound.
  destruct ((opcode f =? 1) || (opcode f =? 2)); cbn.
  - destruct (negb (_isPtyPaused s) && _); repeat split.
  - destruct (opcode f =? 8); repeat split.
Qed.

Lemma handle_frame_exitCode (f : Frame) (s : Process) :
  _exitCode (handle_frame f s) = _exitCode s
  \/ _exitCode (handle_frame f s) = Some 0.
Proof.
  unfold handle_frame, count_inbound.
  destruct ((opcode f =? 1) || (opcode f =? 2)); cbn.
  - destruct (negb (_isPtyPaused s) && _); now left.
  - destruct (opcode f =? 8); [now right | now left].
Qed.

Lemma frames_fired (frames : list Frame) :
  forall s,
    fired (fold_left (fun s frame => handle_frame frame s) frames s)
    = fired s ++ flat_map frame_events frames.
Proof.
  induction frames as [|f frames IH]; intro s; cbn [fold_left flat_map].
  - now rewrite app_nil_r.
  - rewrite IH, handle_frame_fired. now rewrite <- app_assoc.
Qed.

Lemma frames_socket (frames : list Frame) :
  forall s,
    let s' := fold_left (fun s frame => handle_frame frame s) frames s in
    _socket s' = _socket s /\ isDisposed s' = isDisposed s
    /\ _cmuxSessionId s' = _cmuxSessionId s.
Proof.
  induction frames as [|f frames IH]; intro s; cbn [fold_left].
  - repeat split.
  - destruct (IH (handle_frame f s)) as (H1 & H2 & H3).
    destruct (handle_frame_socket f s) as (G1 & G2 & G3).
    cbv zeta in *. rewrite H1, H2, H3. auto.
Qed.

Lemma exit_codes_app_fired (s s' : Process) (es : list Event) :
  fired s' = fired s ++ es ->
  exit_codes s'
  = exit_codes s
      ++ flat_map (fun e => match e with ProcessExit c => [c] | _ => [] end) es.
Proof. intro E. unfold exit_codes. now rewrite E, flat_map_app. Qed.

Lemma frame_events_exit_zero (f : Frame) :
  Forall (fun c => c = 0)
    (flat_map (fun e => match e with ProcessExit c => [c] | _ => [] end)
       (frame_events f)).
Proof.
  unfold frame_events.
  destruct (is_data_frame f); cbn; [constructor|].
  destruct (opcode f =? 8); cbn; repeat constructor.
Qed.

Lemma handle_frame_exits_zero (f : Frame) (s : Process) :
  exits_only_zero s -> exits_only_zero (handle_frame f s).
Proof.
  intros [Hc Hf]. split.
  - destruct (handle_frame_exitCode f s) as [E|E]; rewrite E; auto.
  - rewrite (exit_codes_app_fired s _ _ (handle_frame_fired f s)).
    apply Forall_app. split; [exact Hf | apply frame_events_exit_zero].
Qed.

Lemma frames_exits_zero (frames : list Frame) :
  forall s, exits_only_zero s ->
    exits_only_zero (fold_left (fun s frame => handle_frame frame s) frames s).
Proof.
  induction frames as [|f frames IH]; intros s Hs; cbn [fold_left];
    [exact Hs|]. apply IH, handle_frame_exits_zero, Hs.
Qed.

Lemma socket_write_fields (frame : Buffer) (s : Process) :
  _exitCode (socket_write frame s) = _exitCode s
  /\ fired (socket_write frame s) = fired s
  /\ isDisposed (socket_write frame s) = isDisposed s
  /\ _isPtyPaused (socket_write frame s) = _isPtyPaused s
  /\ _unacknowledgedCharCount (socket_write frame s) = _unacknowledgedCharCount s.
Proof. unfold socket_write. destruct (_socket s); repeat split. Qed.

Lemma call_exits_zero (c : Call) (s : Process) :
  exits_only_zero s -> exits_only_zero (call c s).
Proof.
  intros Hs. destruct c; cbn [call].
  - unfold on_socket_data.
    destruct (_parseWebSocketFrames data); [now apply frames_exits_zero | exact Hs].
  - destruct Hs as [Hc Hf]. unfold on_socket_close. split.
    + cbn. destruct Hc as [-> | ->]; auto.
    + rewrite exit_codes_fire. apply Forall_app. split; [exact Hf|].
      destruct Hc as [-> | ->]; repeat constructor.
  - unfold input. destruct (negb (channel_open s)); [exact Hs|].
    destruct Hs as [Hc Hf].
    destruct (socket_write_fields
                (_createWebSocketFrame (Text data) mask) s) as (E1 & E2 & _).
    unfold exits_only_zero, exit_codes. now rewrite E1, E2.
  - unfold resize. destruct (negb (channel_open s)); [exact Hs|].
    destruct Hs as [Hc Hf].
    destruct (socket_write_fields
                (_createWebSocketFrame (Text (resize_message cols rows)) mask)
                (Upd.dims cols rows s)) as (E1 & E2 & _).
    unfold exits_only_zero, exit_codes. now rewrite E1, E2.
  - destruct Hs as [Hc Hf]. unfold acknowledgeDataEvent.
    cbn. destruct (_isPtyPaused s && _); split; assumption.
  - exact Hs.
  - destruct Hs as [Hc Hf]. unfold shutdown, dispose.
    assert (Hcl : forall t, _exitCode (_closeSocket t) = _exitCode t
                            /\ fired (_closeSocket t) = fired t).
    { intro t. unfold _closeSocket. destruct (_socket t); split; reflexivity. }
    split.
    + destruct (Hcl (Upd.disposed true
                       (fire (ProcessExit
                                match _exitCode (_closeSocket s) with
                                | Some c => if c =? 0 then 0 else c
                                | None => 0
                                end) (_closeSocket s)))) as [-> _].
      cbn. destruct (Hcl s) as [-> _]. exact Hc.
    + unfold exit_codes.
      destruct (Hcl (Upd.disposed true
                       (fire (ProcessExit
                                match _exitCode (_closeSocket s) with
                                | Some c => if c =? 0 then 0 else c
                                | None => 0
                                end) (_closeSocket s)))) as [_ ->].
      cbn [fired Upd.disposed fire].
      destruct (Hcl s) as [-> ->].
      rewrite flat_map_app. apply Forall_app. split; [exact Hf|].
      destruct Hc as [-> | ->]; repeat constructor.
Qed.


End Callbacks.

(** X9. The data callback fires the events of the decoded frames in the
    order of the frames: a data event for each text or binary frame, an
    exit event with code 0 for each close frame, nothing for any other
    opcode; it goes on after a close frame, and it neither closes nor
    replaces the socket. *)
Theorem on_socket_data_events :
  forall (host : Host) (chunk : Buffer) (s : Process),
    exists frames,
      _parseWebSocketFrames chunk = Some frames
      /\ fired (on_socket_data chunk s) = fired s ++ flat_map frame_events frames
      /\ _socket (on_socket_data chunk s) = _socket s
      /\ isDisposed (on_socket_data chunk s) = isDisposed s.
Proof.
  intros host chunk s.
  destruct (parse_run_returns chunk) as (frames & o & E & _).
  exists frames.
  assert (Ep : _parseWebSocketFrames chunk = Some frames)
    by (unfold _parseWebSocketFrames; now rewrite E).
  unfold on_socket_data. rewrite Ep.
  destruct (frames_socket frames s) as (H1 & H2 & _).
  repeat split; [apply frames_fired | exact H1 | exact H2].
Qed.

(** X10. In the raw-socket variant no exit code other than 0 is ever
    recorded or fired: from an object whose exit codes so far are 0, every
    run of socket callbacks and method calls keeps it so. *)
Theorem exit_code_always_zero :
  forall (host : Host) (calls : list Call) (s : Process),
    exits_only_zero s ->
    Forall exits_only_zero (trace call calls s).
Proof.
  intros host calls s Hs.
  apply (trace_invariant call exits_only_zero); [|exact Hs].
  intros c st. apply call_exits_zero.
Qed.

Lemma exit_code_always_zero_witness :
  exits_only_zero started_abc123
  /\ Forall exits_only_zero
       (trace call [SocketData close_frame_1001; SocketClose; CallShutdown true]
          started_abc123).
Proof.
  assert (Hs : exits_only_zero started_abc123)
    by (split; [left; reflexivity | constructor]).
  split; [exact Hs|].
  exact (exit_code_always_zero example_host _ _ Hs).
Defined.






Lemma shutdown_disposes (immediate : bool) (s : Process) :
  isDisposed (shutdown immediate s) = true /\ _socket (shutdown immediate s) = None.
Proof.
  unfold shutdown, dispose, _closeSocket.
  destruct s as [sid sock ec cwd c r p n d f].
  destruct sock; cbn; split; reflexivity.
Qed.

(** X12. [shutdown] fires exactly one more exit event, with the recorded
    exit code or 0 when there is none, keeps the recorded exit code, and
    leaves the object disposed and without a socket, so that closing or
    disposing it again changes nothing. *)
Theorem shutdown_fires_exit_and_disposes :
  forall (immediate : bool) (s : Process),
    let s' := shutdown immediate s in
    exit_codes s'
    = exit_codes s ++ [match _exitCode s with Some c => c | None => 0 end]
    /\ _exitCode s' = _exitCode s
    /\ isDisposed s' = true
    /\ _socket s' = None
    /\ _closeSocket s' = s'
    /\ dispose s' = s'.
Proof.
  intros immediate s s'. subst s'.
  unfold shutdown, dispose, _closeSocket.
  destruct s as [sid sock ec cwd c r p n d f].
  destruct sock as [k|]; cbn; unfold exit_codes; cbn;
    rewrite flat_map_app; cbn;
    (destruct ec as [z|]; [destruct (Z.eqb_spec z 0) as [->|]|]);
    repeat split.
Qed.

(** X13. Closing the socket and disposing are idempotent, closing leaves no
    socket behind, and disposing fires no event. *)
Theorem closeSocket_dispose_idempotent :
  forall s : Process,
    _closeSocket (_closeSocket s) = _closeSocket s
    /\ dispose (dispose s) = dispose s
    /\ _socket (_closeSocket s) = None
    /\ fired (dispose s) = fired s.
Proof.
  intro s. destruct s as [sid sock ec cwd c r p n d f].
  unfold dispose, _closeSocket. destruct sock; cbn; repeat split.
Qed.

Section FlowInvariant.
Context `{Host}.

Lemma frames_pause_not_missed (frames : list Frame) :
  forall s, pause_not_missed s ->
    pause_not_missed (fold_left (fun s frame => handle_frame frame s) frames s).
Proof.
  induction frames as [|f frames IH]; intros s Hs; cbn [fold_left]; [exact Hs|].
  apply IH. unfold pause_not_missed in *.
  rewrite handle_frame_paused. intro Hp.
  apply orb_false_iff in Hp as [Hp Hq].
  specialize (Hs Hp).
  pose proof (handle_frame_count f s) as Hc.
  destruct (is_data_frame f); cbn [andb] in Hq.
  - destruct (Z.gtb_spec (_unacknowledgedCharCount (handle_frame f s))
                HighWatermarkChars); [discriminate | lia].
  - lia.
Qed.

Lemma call_pause_not_missed (c : Call) (s : Process) :
  0 <= HighWatermarkChars ->
  LowWatermarkChars <= HighWatermarkChars ->
  match c with CallAcknowledge charCount => 0 <= charCount | _ => True end ->
  pause_not_missed s -> pause_not_missed (call c s).
Proof.
  intros Hh Hl Hc Hs. destruct c; cbn [call].
  - unfold on_socket_data.
    destruct (_parseWebSocketFrames data);
      [now apply frames_pause_not_missed | exact Hs].
  - exact Hs.
  - unfold input. destruct (negb (channel_open s)); [exact Hs|].
    destruct (socket_write_fields
                (_createWebSocketFrame (Text data) mask) s)
      as (_ & _ & _ & E1 & E2).
    unfold pause_not_missed. now rewrite E1, E2.
  - unfold resize. destruct (negb (channel_open s)); [exact Hs|].
    destruct (socket_write_fields
                (_createWebSocketFrame (Text (resize_message cols rows)) mask)
                (Upd.dims cols rows s)) as (_ & _ & _ & E1 & E2).
    unfold pause_not_missed. now rewrite E1, E2.
  - unfold pause_not_missed in *.
    rewrite acknowledge_paused, acknowledge_count. intro Hp.
    apply andb_false_iff in Hp as [Hp|Hp].
    + specialize (Hs Hp). lia.
    + apply negb_false_iff in Hp.
      destruct (Z.ltb_spec (Z.max (_unacknowledgedCharCount s - charCount) 0)
                  LowWatermarkChars); [lia | discriminate].
  - unfold pause_not_missed. cbn. intros _. exact Hh.
  - unfold pause_not_missed, shutdown, dispose, _closeSocket in *.
    destruct (_socket s) eqn:E; cbn; [exact Hs|]. rewrite E. exact Hs.
Qed.

Lemma trace_invariant_guarded {A : Type} (step : A -> Process -> Process)
    (P : Process -> Prop) (G : A -> Prop) :
  (forall x s, G x -> P s -> P (step x s)) ->
  forall xs s, Forall G xs -> P s -> Forall P (trace step xs s).
Proof.
  intros Hstep xs. induction xs as [|x xs IH]; intros s Hg Hs; cbn [trace].
  - constructor; [exact Hs | constructor].
  - inversion Hg as [|? ? Hx Hxs]; subst.
    constructor; [exact Hs|]. apply IH; [exact Hxs|]. now apply Hstep.
Qed.

End FlowInvariant.

(** X14. No pause is missed: with [0 <= HighWatermarkChars] and
    [LowWatermarkChars <= HighWatermarkChars], along every run whose
    acknowledgements are not negative, an object that is not paused has a
    count of at most [HighWatermarkChars]. *)
Theorem pause_never_missed :
  forall (host : Host) (calls : list Call) (s : Process),
    0 <= HighWatermarkChars ->
    LowWatermarkChars <= HighWatermarkChars ->
    acks_nonneg calls ->
    pause_not_missed s ->
    Forall pause_not_missed (trace call calls s).
Proof.
  intros host calls s Hh Hl Hacks Hs.
  apply (trace_invariant_guarded call pause_not_missed
           (fun c => match c with
                     | CallAcknowledge charCount => 0 <= charCount
                     | _ => True
                     end)); [|exact Hacks|exact Hs].
  intros c st Hc Hst. now apply call_pause_not_missed.
Qed.

Lemma pause_never_missed_witness :
  0 <= HighWatermarkChars
  /\ LowWatermarkChars <= HighWatermarkChars
  /\ acks_nonneg [SocketData text_a_chunk; CallAcknowledge 1;
                  CallClearUnacknowledged]
  /\ pause_not_missed started_abc123
  /\ Forall pause_not_missed
       (trace call [SocketData text_a_chunk; CallAcknowledge 1;
                    CallClearUnacknowledged] started_abc123).
Proof.
  assert (H1 : 0 <= HighWatermarkChars) by (vm_compute; discriminate).
  assert (H2 : LowWatermarkChars <= HighWatermarkChars)
    by (vm_compute; discriminate).
  assert (H3 : acks_nonneg [SocketData text_a_chunk; CallAcknowledge 1;
                            CallClearUnacknowledged]).
  { repeat constructor. vm_compute. discriminate. }
  assert (H4 : pause_not_missed started_abc123)
    by (intros _; vm_compute; discriminate).
  split; [exact H1|]. split; [exact H2|]. split; [exact H3|]. split; [exact H4|].
  exact (pause_never_missed example_host _ _ H1 H2 H3 H4).
Defined.

(** A negative acknowledgement raises the count past the high watermark
    without pausing. *)
Example negative_ack_misses_pause :
  let s := acknowledgeDataEvent (-100001) started_abc123 in
  _isPtyPaused s = false /\ _unacknowledgedCharCount s = 100001.
Proof. split; reflexivity. Qed.


Section StartFacts.
Context `{Json}.




End StartFacts.



(** X16. A start without a session id, answered by status 200 with a body
    [JSON.parse] reads: when the id in the body is not empty and the
    handshake upgrades, the object takes that id, opens the socket, fires
    ready and the start succeeds; when the id is the empty string the
    object keeps the empty id and the start fails with [No session ID]. *)
Theorem start_new_session :
  forall (json : Json) (data : jsstring) (response : SessionInfo) (s : Process),
    has_session s = false ->
    JSON_parse data = Some response ->
    (id response <> [] ->
     start (Response 200 data) Upgraded s
     = (fire (ProcessReady (_hashSessionId (id response)) (_initialCwd s))
          (Upd.socket (Some {| destroyed := false; written := [] |})
             (Upd.sessionId (Some (id response)) s)),
        Started))
    /\ (id response = [] ->
        forall handshake,
          start (Response 200 data) handshake s
          = (Upd.sessionId (Some []) s,
             LaunchError (lit "Failed to create cmux session: No session ID"))).
Proof.
  intros json data response s Hs Hp.
  unfold start, _createCmuxSession, _connectWebSocket.
  rewrite Hs. cbn [Z.eqb Pos.eqb]. rewrite Hp.
  unfold has_session. cbn [_cmuxSessionId Upd.sessionId].
  split.
  - intro Hid. destruct (id response) as [|c sid]; [contradiction|]. reflexivity.
  - intros Hid handshake. rewrite Hid. reflexivity.
Qed.

Lemma start_new_session_witness :
  has_session (new_process (lit "/home/user") 80 24 None) = false
  /\ JSON_parse abc123_body
     = Some {| id := lit "abc123"; ws_url := lit "/ws/abc123" |}
  /\ lit "abc123" <> []
  /\ snd (start (Response 200 abc123_body) Upgraded
            (new_process (lit "/home/user") 80 24 None)) = Started.
Proof.
  assert (H1 : has_session (new_process (lit "/home/user") 80 24 None) = false)
    by reflexivity.
  assert (H2 : JSON_parse abc123_body
               = Some {| id := lit "abc123"; ws_url := lit "/ws/abc123" |})
    by reflexivity.
  assert (H3 : lit "abc123" <> []) by discriminate.
  split; [exact H1|]. split; [exact H2|]. split; [exact H3|].
  rewrite (proj1 (start_new_session example_json abc123_body _ _ H1 H2) H3).
  reflexivity.
Defined.

(** X17. With a session id to attach to, [start] makes no use of the
    session-create answer: whatever that answer would be, the outcome is the
    same, the session id is kept, and an upgraded handshake means success. *)
Theorem start_attach_ignores_reply :
  forall (json : Json) (reply reply' : HttpReply) (handshake : Handshake)
         (s : Process),
    has_session s = true ->
    start reply handshake s = start reply' handshake s
    /\ _cmuxSessionId (fst (start reply handshake s)) = _cmuxSessionId s
    /\ (handshake = Upgraded -> snd (start reply handshake s) = Started).
Proof.
  intros json reply reply' handshake s Hs.
  unfold start. rewrite Hs. unfold _connectWebSocket. rewrite Hs. cbn [negb].
  destruct handshake; cbn; (split; [reflexivity|]); (split; [reflexivity|]);
    intro Hh; (reflexivity || discriminate Hh).
Qed.

Lemma start_attach_ignores_reply_witness :
  has_session (new_process (lit "/home/user") 80 24 (Some (lit "abc123"))) = true
  /\ start (Response 500 (lit "boom")) Upgraded
       (new_process (lit "/home/user") 80 24 (Some (lit "abc123")))
     = start (RequestError (lit "ECONNREFUSED")) Upgraded
         (new_process (lit "/home/user") 80 24 (Some (lit "abc123"))).
Proof.
  assert (Hs : has_session
                 (new_process (lit "/home/user") 80 24 (Some (lit "abc123")))
               = true) by reflexivity.
  split; [exact Hs|].
  exact (proj1 (start_attach_ignores_reply example_json
                  (Response 500 (lit "boom")) (RequestError (lit "ECONNREFUSED"))
                  Upgraded _ Hs)).
Defined.

(** X18. What a failed session-create call turns into, for a start without
    a session id: a 200 answer [JSON.parse] rejects fails with
    [Invalid JSON response: ] and the body, any other status with
    [HTTP <status>: ] and the body, a request error with its own message;
    the object is left as it was. *)
Theorem start_create_errors :
  forall (json : Json) (handshake : Handshake) (s : Process),
    has_session s = false ->
    (forall data,
        JSON_parse data = None ->
        start (Response 200 data) handshake s
        = (s, LaunchError (lit "Failed to create cmux session: Invalid JSON response: "
                             ++ data)))
    /\ (forall statusCode data,
           statusCode <> 200 ->
           start (Response statusCode data) handshake s
           = (s, LaunchError (lit "Failed to create cmux session: HTTP "
                                ++ decimal statusCode ++ lit ": " ++ data)))
    /\ (forall message,
           start (RequestError message) handshake s
           = (s, LaunchError (lit "Failed to create cmux session: " ++ message))).
Proof.
  intros json handshake s Hs. split; [|split].
  - intros data Hp.
    rewrite (start_create_rejected _ handshake s
               (lit "Invalid JSON response: " ++ data) Hs).
    + reflexivity.
    + unfold _createCmuxSession. cbn [Z.eqb Pos.eqb]. now rewrite Hp.
  - intros statusCode data Hne. now apply start_http_failure.
  - intro message.
    now rewrite (start_create_rejected _ handshake s message Hs).
Qed.

Lemma start_create_errors_witness :
  has_session (new_process (lit "/home/user") 80 24 None) = false
  /\ JSON_parse (lit "<html>") = None
  /\ start (Response 200 (lit "<html>")) Upgraded
       (new_process (lit "/home/user") 80 24 None)
     = (new_process (lit "/home/user") 80 24 None,
        LaunchError
          (lit "Failed to create cmux session: Invalid JSON response: <html>")).
Proof.
  assert (Hs : has_session (new_process (lit "/home/user") 80 24 None) = false)
    by reflexivity.
  assert (Hp : JSON_parse (lit "<html>") = None) by reflexivity.
  split; [exact Hs|]. split; [exact Hp|].
  exact (proj1 (start_create_errors example_json Upgraded _ Hs) _ Hp).
Defined.

(** X19. The pseudo-PID is not injective: the ids [Aa] and [BB] followed by
    any common suffix are different ids with the same hash. *)
Theorem hashSessionId_collides :
  forall suffix : jsstring,
    lit "Aa" <> lit "BB"
    /\ lit "Aa" ++ suffix <> lit "BB" ++ suffix
    /\ _hashSessionId (lit "Aa" ++ suffix) = _hashSessionId (lit "BB" ++ suffix).
Proof.
  intro suffix. split; [discriminate|]. split; [discriminate|].
  unfold _hashSessionId. now rewrite !fold_left_app.
Qed.

(** X20. No run of [updateProperty] calls changes what [refreshProperty] or
    [getCwd] answer; for an object from the constructor [getCwd] stays the
    cwd it was built with; and [refreshProperty(FixedDimensions)] answers
    the shell type, not the dimensions just stored. *)
Theorem updateProperty_changes_no_answer :
  forall (us : list (Props.ProcessPropertyType * Props.Value))
         (p : Props.Properties) (type : Props.ProcessPropertyType)
         (cwd0 : jsstring) (value : Props.Value),
    Props.refreshProperty type (Props.updates us p) = Props.refreshProperty type p
    /\ Props.getCwd (Props.updates us p) cwd0 = Props.getCwd p cwd0
    /\ Props.getCwd (Props.updates us (Props.new_properties cwd0)) cwd0 = cwd0
    /\ Props.refreshProperty Props.FixedDimensions
         (Props.updateProperty Props.FixedDimensions value p)
       = Props.shellType_value p.
Proof.
  intros us p type cwd0 value.
  assert (G : forall us p,
             Props.cwd (Props.updates us p) = Props.cwd p
             /\ Props.initialCwd (Props.updates us p) = Props.initialCwd p
             /\ Props.title (Props.updates us p) = Props.title p
             /\ Props.shellType (Props.updates us p) = Props.shellType p).
  { clear. induction us as [|[t v] us IH]; intro p; [repeat split|].
    unfold Props.updates in *. cbn [fold_left fst snd].
    destruct (IH (Props.updateProperty t v p)) as (H1 & H2 & H3 & H4).
    rewrite H1, H2, H3, H4. destruct t; repeat split. }
  destruct (G us p) as (H1 & H2 & H3 & H4).
  split; [|split; [|split]].
  - unfold Props.refreshProperty, Props.shellType_value.
    rewrite H1, H2, H3, H4. reflexivity.
  - unfold Props.getCwd. now rewrite H1.
  - unfold Props.getCwd. destruct (G us (Props.new_properties cwd0)) as (-> & _).
    cbn. destruct cwd0; reflexivity.
  - reflexivity.
Qed.

(** ** Signals *)

Lemma is_kill_signal_true (signal : jsstring) :
  is_kill_signal signal = true
  <-> signal = lit "SIGTERM" \/ signal = lit "SIGKILL".
Proof.
  unfold is_kill_signal.
  destruct (list_eq_dec Z.eq_dec signal (lit "SIGTERM")) as [E1|N1];
    [split; auto|].
  destruct (list_eq_dec Z.eq_dec signal (lit "SIGKILL")) as [E2|N2];
    [split; auto|].
  split; [discriminate|]. intros [E|E]; contradiction.
Qed.

(** X21. [sendSignal] forwards no signal to the server: SIGTERM and SIGKILL
    shut the object down as [shutdown(true)] does, and every other signal
    leaves the object exactly as it was, nothing written to the socket. *)
Theorem sendSignal_only_kills :
  forall (signal : jsstring) (s : Process),
    (signal = lit "SIGTERM" \/ signal = lit "SIGKILL" ->
     sendSignal signal s = shutdown true s
     /\ isDisposed (sendSignal signal s) = true
     /\ _socket (sendSignal signal s) = None)
    /\ (signal <> lit "SIGTERM" -> signal <> lit "SIGKILL" ->
        sendSignal signal s = s).
Proof.
  intros signal s. unfold sendSignal. split.
  - intro Hk. apply is_kill_signal_true in Hk. rewrite Hk.
    destruct (shutdown_disposes true s) as (Hd & Hs).
    auto.
  - intros N1 N2.
    destruct (is_kill_signal signal) eqn:E; [|reflexivity].
    apply is_kill_signal_true in E. destruct E; contradiction.
Qed.

Lemma sendSignal_only_kills_witness :
  lit "SIGINT" <> lit "SIGTERM"
  /\ lit "SIGINT" <> lit "SIGKILL"
  /\ sendSignal (lit "SIGINT") started_abc123 = started_abc123.
Proof.
  assert (N1 : lit "SIGINT" <> lit "SIGTERM") by discriminate.
  assert (N2 : lit "SIGINT" <> lit "SIGKILL") by discriminate.
  split; [exact N1|]. split; [exact N2|].
  exact (proj2 (sendSignal_only_kills (lit "SIGINT") started_abc123) N1 N2).
Defined.
